(** * gomlmmj: the list manager and the locking wrapper

    A shallow embedding of the lock registry (type [ListManager]: one
    [sync.RWMutex] per mailing list, behind a top-level [sync.RWMutex]) and
    of [wrapper.go] (type [MLMMJWrapper], the [MLMMJHandler] interface and
    its [DockerHandler] implementation), with the properties of the registry
    and of the locking discipline the wrapper builds on it. The
    [ListManager] is the one whose [Init] takes the list of spools, which is
    what [NewMLMMJWrapper] passes to it.

    Go values are modelled as follows.
    - [string] is a Rocq [string]; a slice is a [list]; the nil slice is [[]].
    - [UserType] is an [int], hence a [Z] (the code uses [-1] as a mode).
    - An [error] is [option error]; [None] is Go's [nil].
    - A [*sync.RWMutex] is a location [loc] into the [heap] of the mutexes
      allocated so far; [new(sync.RWMutex)] allocates the next location.
    - [map[string]*sync.RWMutex] is [option (gmap string loc)]; [None] is the
      nil map of a [ListManager] that [Init] has not touched.
    - A function body runs in the monad [M]: it threads the [state], and
      ends by returning, by panicking, by a fatal error of the runtime, or
      parked on a lock that is not available. A run is the run of one
      goroutine while the others stand still; what the others hold shows in
      the state of the mutexes.
    - Functions of Go's library ([path.Join], [ioutil.ReadDir], the HTTP
      client, [bufio.Scanner], [strings.TrimSpace], [strconv.Atoi]) are
      parameters.
    - [context.Context] is not represented: a cancellation reaches the
      wrapper as the error the handler returns. *)

From stdpp Require Import gmap strings list fin_maps.
From Stdlib Require Import ZArith.

Local Open Scope Z_scope.
Local Open Scope string_scope.
Local Open Scope list_scope.

(** ** Errors *)

(** Go compares errors by identity. [UnwatchedList] is the package variable
    of [wrapper.go]; [NewError msg] is any other error value, with its text. *)
Inductive error : Type :=
| UnwatchedList
| NewError (msg : string).

#[global] Instance error_eq_dec : EqDecision error.
Proof. solve_decision. Defined.

Definition error_Error (e : error) : string :=
  match e with
  | UnwatchedList => "List was not properly added to the system."
  | NewError msg => msg
  end.

(** ** [sync.RWMutex] *)

Record RWMutex : Type := mkRWMutex {
  writer : bool;      (* held by a writer *)
  readers : nat       (* number of readers holding it *)
}.

#[global] Instance RWMutex_eq_dec : EqDecision RWMutex.
Proof. solve_decision. Defined.

(** The zero value, an unlocked mutex. *)
Definition zeroRWMutex : RWMutex := mkRWMutex false 0.

Inductive lockop : Type := OpLock | OpUnlock | OpRLock | OpRUnlock.

#[global] Instance lockop_eq_dec : EqDecision lockop.
Proof. solve_decision. Defined.

Inductive lockres : Type :=
| Done (m : RWMutex)      (* the call returns *)
| Wait                    (* the caller is parked until the mutex is free *)
| Misuse (msg : string).  (* the runtime aborts the program *)

(** One call of [Lock], [Unlock], [RLock] or [RUnlock]. A reader is admitted
    whenever no writer holds the mutex; the precedence Go gives to a writer
    that is already waiting is not represented. *)
Definition rw_step (op : lockop) (m : RWMutex) : lockres :=
  match op with
  | OpLock =>
      if writer m then Wait
      else match readers m with
           | O => Done (mkRWMutex true 0)
           | S _ => Wait
           end
  | OpRLock =>
      if writer m then Wait else Done (mkRWMutex false (S (readers m)))
  | OpUnlock =>
      if writer m then Done (mkRWMutex false (readers m))
      else Misuse "sync: Unlock of unlocked RWMutex"
  | OpRUnlock =>
      match readers m with
      | S n => Done (mkRWMutex (writer m) n)
      | O => Misuse "sync: RUnlock of unlocked RWMutex"
      end
  end.

(** ** Requests *)

Definition UserType : Type := Z.
Definition Subscriber : UserType := 0.
Definition Digest : UserType := 1.
Definition Nomail : UserType := 2.
Definition Moderator : UserType := 3.
Definition Owner : UserType := 4.

Definition UserType_String (t : UserType) : string :=
  if decide (t = Subscriber) then "Subscriber"
  else if decide (t = Digest) then "Digest"
  else if decide (t = Nomail) then "Nomail"
  else if decide (t = Moderator) then "Moderator"
  else if decide (t = Owner) then "Owner"
  else "Unkown user type".

Record SubRequest : Type := mkSubRequest {
  sub_Mail : string;
  sub_Name : string;
  sub_ModerationString : string;
  sub_Spool : string;
  sub_WelcomeMail : bool;
  sub_ConfirmationMail : bool;
  sub_ForceSubscription : bool;
  sub_BeQuiet : bool;
  sub_MailAlreadySubscribed : bool;
  sub_Mode : UserType
}.

Definition NewSubRequest (mail name : string) : SubRequest :=
  {| sub_Mail := mail;
     sub_Name := name;
     sub_ModerationString := "";
     sub_Spool := "/var/spool/mlmmj";
     sub_WelcomeMail := true;
     sub_ConfirmationMail := false;
     sub_ForceSubscription := false;
     sub_BeQuiet := false;
     sub_MailAlreadySubscribed := false;
     sub_Mode := Subscriber |}.

Record UnsubRequest : Type := mkUnsubRequest {
  unsub_Mail : string;
  unsub_Name : string;
  unsub_Spool : string;
  unsub_GoodBye : bool;
  unsub_ConfirmationMail : bool;
  unsub_BeQuiet : bool;
  unsub_MailNotSubscribed : bool;
  unsub_Mode : UserType
}.

Definition NewUnsubRequest (mail name : string) : UnsubRequest :=
  {| unsub_Mail := mail;
     unsub_Name := name;
     unsub_Spool := "/var/spool/mlmmj";
     unsub_GoodBye := true;
     unsub_ConfirmationMail := false;
     unsub_BeQuiet := false;
     unsub_MailNotSubscribed := false;
     unsub_Mode := -1 |}.

(** ** The handler interface *)

(** [MLMMJHandler]: the five methods of the interface. A handler works on a
    world [W] of its own (the mlmmj installation behind it), which every call
    may read and change. *)
Class MLMMJHandler (W : Type) : Type := {
  handler_MakeML :
    string -> string -> string -> string -> string -> W -> (string * option error) * W;
  handler_Sub : SubRequest -> W -> (string * option error) * W;
  handler_Unsub : UnsubRequest -> W -> (string * option error) * W;
  handler_List : string -> string -> UserType -> W -> (list string * option error) * W;
  handler_Count : string -> string -> UserType -> W -> (Z * option error) * W
}.

(** A call of a handler method, and what it returned besides the error. *)
Inductive hcall : Type :=
| CallMakeML (spool name domain owner lang : string)
| CallSub (r : SubRequest)
| CallUnsub (r : UnsubRequest)
| CallList (spool name : string) (mode : UserType)
| CallCount (spool name : string) (mode : UserType).

Inductive hret : Type :=
| RetText (out : string)
| RetList (l : list string)
| RetCount (n : Z).

(** ** State and events *)

Definition loc : Type := nat.

Inductive lockref : Type :=
| Top               (* [lm.mutex] *)
| Res (m : loc).    (* the mutex of one list *)

#[global] Instance lockref_eq_dec : EqDecision lockref.
Proof. solve_decision. Defined.

(** What a run does, in the order it does it. [EvRelease] marks a call of
    the function value that [ReadList] or [WriteList] returned. *)
Inductive event : Type :=
| EvSync (m : lockref) (op : lockop)
| EvRelease
| EvCall (c : hcall) (r : hret) (err : option error)
| EvReadDir (spool : string).

Record ListManager : Type := mkListManager {
  mutex : RWMutex;
  lists : option (gmap string loc)
}.

Record state (W : Type) : Type := mkState {
  lm : ListManager;
  heap : list RWMutex;
  ext : W;
  trace : list event
}.

Arguments mkState {W} _ _ _ _.
Arguments lm {W} _.
Arguments heap {W} _.
Arguments ext {W} _.
Arguments trace {W} _.

(** ** The monad of Go function bodies *)

Inductive outcome (W A : Type) : Type :=
| Returns (a : A) (s : state W)
| Panics (msg : string) (s : state W)
| Fatal (msg : string) (s : state W)
| Blocks (s : state W).

Arguments Returns {W A} _ _.
Arguments Panics {W A} _ _.
Arguments Fatal {W A} _ _.
Arguments Blocks {W A} _.

Definition M (W A : Type) : Type := state W -> outcome W A.

Definition ret {W A} (a : A) : M W A := fun s => Returns a s.

Definition bind {W A B} (c : M W A) (k : A -> M W B) : M W B :=
  fun s =>
    match c s with
    | Returns a s' => k a s'
    | Panics msg s' => Panics msg s'
    | Fatal msg s' => Fatal msg s'
    | Blocks s' => Blocks s'
    end.

Definition panic {W A} (msg : string) : M W A := fun s => Panics msg s.

(** [defer d; body]: [d] runs when [body] returns and also when it panics;
    it does not run when the goroutine is parked or the program aborted. *)
Definition defer {W A} (d : M W unit) (body : M W A) : M W A :=
  fun s =>
    match body s with
    | Returns a s' => bind d (fun _ => ret a) s'
    | Panics msg s' => bind d (fun _ => panic msg) s'
    | Fatal msg s' => Fatal msg s'
    | Blocks s' => Blocks s'
    end.

Declare Scope go_scope.
Delimit Scope go_scope with go.
Notation "x <- c ;; k" := (bind c (fun x => k))
  (at level 100, c at next level, right associativity) : go_scope.
Notation "c ;; k" := (bind c (fun _ => k))
  (at level 100, right associativity) : go_scope.
Notation "'defer!' d ;; body" := (defer d body)
  (at level 100, d at next level, right associativity) : go_scope.
Local Open Scope go_scope.

Section Runtime.
Context {W : Type}.

Definition log (e : event) (s : state W) : state W :=
  mkState (lm s) (heap s) (ext s) (trace s ++ [e]).

Definition get_mutex (m : lockref) (s : state W) : option RWMutex :=
  match m with
  | Top => Some (mutex (lm s))
  | Res l => heap s !! l
  end.

Definition set_mutex (m : lockref) (mu : RWMutex) (s : state W) : state W :=
  match m with
  | Top => mkState (mkListManager mu (lists (lm s))) (heap s) (ext s) (trace s)
  | Res l => mkState (lm s) (<[l := mu]> (heap s)) (ext s) (trace s)
  end.

(** One method call on a mutex. *)
Definition sync (m : lockref) (op : lockop) : M W unit :=
  fun s =>
    match get_mutex m s with
    | None => Panics "invalid memory address or nil pointer dereference" s
    | Some mu =>
        match rw_step op mu with
        | Done mu' => Returns tt (log (EvSync m op) (set_mutex m mu' s))
        | Wait => Blocks s
        | Misuse msg => Fatal msg s
        end
    end.

(** [new(sync.RWMutex)] *)
Definition new_RWMutex : M W loc :=
  fun s =>
    Returns (length (heap s))
            (mkState (lm s) (heap s ++ [zeroRWMutex]) (ext s) (trace s)).

(** [m, ok := lm.lists[k]]: reading a nil map finds nothing. *)
Definition map_load (k : string) : M W (option loc) :=
  fun s =>
    match lists (lm s) with
    | None => Returns None s
    | Some mp => Returns (mp !! k) s
    end.

(** [lm.lists[k] = m]: writing a nil map panics. *)
Definition map_store (k : string) (m : loc) : M W unit :=
  fun s =>
    match lists (lm s) with
    | None => Panics "assignment to entry in nil map" s
    | Some mp =>
        Returns tt (mkState (mkListManager (mutex (lm s)) (Some (<[k := m]> mp)))
                            (heap s) (ext s) (trace s))
    end.

(** [delete(lm.lists, k)]: a no-op on a nil map. *)
Definition map_delete (k : string) : M W unit :=
  fun s =>
    match lists (lm s) with
    | None => Returns tt s
    | Some mp =>
        Returns tt (mkState (mkListManager (mutex (lm s)) (Some (delete k mp)))
                            (heap s) (ext s) (trace s))
    end.

(** [lm.lists = make(map[string]*sync.RWMutex)] *)
Definition map_make : M W unit :=
  fun s =>
    Returns tt (mkState (mkListManager (mutex (lm s)) (Some ∅))
                        (heap s) (ext s) (trace s)).

Definition emit (e : event) : M W unit := fun s => Returns tt (log e s).

Definition park {A} : M W A := fun s => Blocks s.
End Runtime.

(** ** [ListManager] *)

Module ListManagerImpl.
Section WithWorld.
Context {W : Type}.

(** [NewListManager]: [&ListManager{}], the zero mutex and the nil map. *)
Definition NewListManager : ListManager := mkListManager zeroRWMutex None.

Definition AddList (fullPath : string) : M W bool :=
  sync Top OpLock ;;
  defer! sync Top OpUnlock ;;
  m <- map_load fullPath ;;
  match m with
  | Some _ => ret false
  | None =>
      fresh <- new_RWMutex ;;
      map_store fullPath fresh ;;
      ret true
  end.

Definition RemoveList (fullPath : string) : M W bool :=
  sync Top OpLock ;;
  defer! sync Top OpUnlock ;;
  m <- map_load fullPath ;;
  match m with
  | None => ret false
  | Some _ =>
      map_delete fullPath ;;
      ret true
  end.

Definition ReadList (fullPath : string) : M W (bool * M W unit) :=
  sync Top OpRLock ;;
  defer! sync Top OpRUnlock ;;
  m <- map_load fullPath ;;
  match m with
  | None => ret (false, ret tt)
  | Some m =>
      sync (Res m) OpRLock ;;
      ret (true, sync (Res m) OpRUnlock)
  end.

Definition WriteList (fullPath : string) : M W (bool * M W unit) :=
  sync Top OpRLock ;;
  defer! sync Top OpRUnlock ;;
  m <- map_load fullPath ;;
  match m with
  | None => ret (false, ret tt)
  | Some m =>
      sync (Res m) OpLock ;;
      ret (true, sync (Res m) OpUnlock)
  end.
End WithWorld.
End ListManagerImpl.

(** ** Goroutines and the error channel *)

(** [Init], [ListAllMembers] and [ListAllControllers] start one goroutine per
    task; each goroutine works on the variables it shares with its parent
    ([L]) and ends by sending its error on a buffered channel. The order in
    which the goroutines get to run is not fixed by the program: it is the
    schedule [sched], the list of the goroutines' indices in the order in
    which they run (each one to its end). *)
Section Goroutines.
Context {W L : Type}.

Fixpoint go_sched (sched : list nat) (gs : list (L -> M W L)) (l : L) : M W L :=
  match sched with
  | [] => ret l
  | i :: sched' =>
      match gs !! i with
      | Some g => l' <- g l ;; go_sched sched' gs l'
      | None => go_sched sched' gs l
      end
  end.

(** [ch <- e] on a channel of capacity [cap] holding [buf]. *)
Definition chan_send (cap : nat) (e : option error) (buf : list (option error))
  : M W (list (option error)) :=
  if decide (length buf < cap)%nat then ret (buf ++ [e]) else park.

(** [<-ch] *)
Definition chan_recv (buf : list (option error))
  : M W (option error * list (option error)) :=
  match buf with
  | [] => park
  | e :: buf' => ret (e, buf')
  end.

(** [for i := 0; i < n; i++ { next := <-ch; if err == nil { err = next } }] *)
Fixpoint recv_errors (n : nat) (buf : list (option error)) (err : option error)
  : M W (option error) :=
  match n with
  | O => ret err
  | S n' =>
      r <- chan_recv buf ;;
      let '(next, buf') := r in
      recv_errors n' buf' (match err with None => next | Some _ => err end)
  end.
End Goroutines.

(** ** Discovery of the lists and [Init] *)

Record FileInfo : Type := mkFileInfo {
  fi_Name : string;
  fi_IsDir : bool
}.

Section Discovery.
Context {W : Type}.
(** Go's [path.Join] and [ioutil.ReadDir]. *)
Variable path_Join : string -> string -> string.
Variable ReadDir : string -> list FileInfo * option error.

Definition GetLists (spool : string) : M W (list string * option error) :=
  emit (EvReadDir spool) ;;
  let '(files, err) := ReadDir spool in
  match err with
  | Some e => ret ([], Some e)
  | None => ret (fi_Name <$> filter (fun f => fi_IsDir f = true) files, None)
  end.

Definition listDir (spool name : string) : string := path_Join spool name.

Fixpoint Init_add (spool : string) (found : list string) : M W unit :=
  match found with
  | [] => ret tt
  | list :: found' =>
      ListManagerImpl.AddList (listDir spool list) ;;
      Init_add spool found'
  end.

(** The goroutine [Init] starts for one spool. *)
Definition Init_go (cap : nat) (spool : string) (ch : list (option error))
  : M W (list (option error)) :=
  r <- GetLists spool ;;
  let '(found, err) := r in
  Init_add spool found ;;
  chan_send cap err ch.

Definition Init (sched : list nat) (spoolList : list string) : M W (option error) :=
  map_make ;;
  ch <- go_sched sched (Init_go (length spoolList) <$> spoolList) [] ;;
  recv_errors (length spoolList) ch None.
End Discovery.

(** ** [wrapper.go]: [MLMMJWrapper] *)

(** The variables the goroutines of [ListAllMembers] share with it: the three
    named results and the channel. *)
Record members : Type := mkMembers {
  subscribers : list string;
  digest : list string;
  nomail : list string;
  members_ch : list (option error)
}.

(** The same for [ListAllControllers]. *)
Record controllers : Type := mkControllers {
  owners : list string;
  moderators : list string;
  controllers_ch : list (option error)
}.

Module MLMMJWrapper.
Section WithHandler.
Context {W : Type} {handler : MLMMJHandler W}.
Variable path_Join : string -> string -> string.
Variable ReadDir : string -> list FileInfo * option error.

Import ListManagerImpl.

(** A call of [wrapper.handler]. *)
Definition call {A} (c : hcall) (wrap : A -> hret)
    (method : W -> (A * option error) * W) : M W (A * option error) :=
  fun s =>
    let '(r, w') := method (ext s) in
    Returns r (log (EvCall c (wrap (fst r)) (snd r))
                   (mkState (lm s) (heap s) w' (trace s))).

(** [lock()], the call of the function [ReadList] or [WriteList] gave. *)
Definition invoke (lock : M W unit) : M W unit :=
  emit EvRelease ;; lock.

(** [NewMLMMJWrapper]: the error is non-nil exactly when no wrapper is
    returned. *)
Definition NewMLMMJWrapper (sched : list nat) (spools : list string)
  : M W (option error) :=
  fun s =>
    Init path_Join ReadDir sched spools
         (mkState NewListManager (heap s) (ext s) (trace s)).

Definition MakeML (spool name domain owner lang : string)
  : M W (string * option error) :=
  r <- call (CallMakeML spool name domain owner lang) RetText
            (handler_MakeML spool name domain owner lang) ;;
  let '(output, err) := r in
  match err with
  | Some _ => ret (output, err)
  | None =>
      AddList (listDir path_Join spool name) ;;
      ret (output, err)
  end.

Definition Sub (r : SubRequest) : M W (string * option error) :=
  g <- WriteList (listDir path_Join (sub_Spool r) (sub_Name r)) ;;
  let '(hasList, lock) := g in
  defer! invoke lock ;;
  if negb hasList then ret ("", Some UnwatchedList)
  else call (CallSub r) RetText (handler_Sub r).

Definition Unsub (r : UnsubRequest) : M W (string * option error) :=
  g <- WriteList (listDir path_Join (unsub_Spool r) (unsub_Name r)) ;;
  let '(hasList, lock) := g in
  defer! invoke lock ;;
  if negb hasList then ret ("", Some UnwatchedList)
  else call (CallUnsub r) RetText (handler_Unsub r).

Definition List (spool name : string) (mode : UserType)
  : M W (list string * option error) :=
  g <- ReadList (listDir path_Join spool name) ;;
  let '(hasList, lock) := g in
  defer! invoke lock ;;
  if negb hasList then ret ([], Some UnwatchedList)
  else call (CallList spool name mode) RetList (handler_List spool name mode).

(** The three goroutines of [ListAllMembers]. *)
Definition members_go (spool name : string) : list (members -> M W members) :=
  [ (fun v =>
       r <- call (CallList spool name Subscriber) RetList
                 (handler_List spool name Subscriber) ;;
       let '(sub, nextErr) := r in
       ch <- chan_send 3 nextErr (members_ch v) ;;
       ret (mkMembers sub (digest v) (nomail v) ch));
    (fun v =>
       r <- call (CallList spool name Digest) RetList
                 (handler_List spool name Digest) ;;
       let '(dg, nextErr) := r in
       ch <- chan_send 3 nextErr (members_ch v) ;;
       ret (mkMembers (subscribers v) dg (nomail v) ch));
    (fun v =>
       r <- call (CallList spool name Nomail) RetList
                 (handler_List spool name Nomail) ;;
       let '(nm, nextErr) := r in
       ch <- chan_send 3 nextErr (members_ch v) ;;
       ret (mkMembers (subscribers v) (digest v) nm ch)) ].

Definition ListAllMembers (sched : list nat) (spool name : string)
  : M W (list string * list string * list string * option error) :=
  g <- ReadList (listDir path_Join spool name) ;;
  let '(hasList, lock) := g in
  defer! invoke lock ;;
  if negb hasList then ret ([], [], [], Some UnwatchedList)
  else
    v <- go_sched sched (members_go spool name) (mkMembers [] [] [] []) ;;
    err <- recv_errors 3 (members_ch v) None ;;
    ret (subscribers v, digest v, nomail v, err).

(** The two goroutines of [ListAllControllers]. *)
Definition controllers_go (spool name : string)
  : list (controllers -> M W controllers) :=
  [ (fun v =>
       r <- call (CallList spool name Owner) RetList
                 (handler_List spool name Owner) ;;
       let '(o, nextErr) := r in
       ch <- chan_send 2 nextErr (controllers_ch v) ;;
       ret (mkControllers o (moderators v) ch));
    (fun v =>
       r <- call (CallList spool name Moderator) RetList
                 (handler_List spool name Moderator) ;;
       let '(m, nextErr) := r in
       ch <- chan_send 2 nextErr (controllers_ch v) ;;
       ret (mkControllers (owners v) m ch)) ].

Definition ListAllControllers (sched : list nat) (spool name : string)
  : M W (list string * list string * option error) :=
  g <- ReadList (listDir path_Join spool name) ;;
  let '(hasList, lock) := g in
  defer! invoke lock ;;
  if negb hasList then ret ([], [], Some UnwatchedList)
  else
    v <- go_sched sched (controllers_go spool name) (mkControllers [] [] []) ;;
    err <- recv_errors 2 (controllers_ch v) None ;;
    ret (owners v, moderators v, err).

Definition Count (spool name : string) (mode : UserType)
  : M W (Z * option error) :=
  g <- ReadList (listDir path_Join spool name) ;;
  let '(hasList, lock) := g in
  defer! invoke lock ;;
  if negb hasList then ret (-1, Some UnwatchedList)
  else call (CallCount spool name mode) RetCount (handler_Count spool name mode).
End WithHandler.
End MLMMJWrapper.

(** ** [wrapper.go]: the arguments of the mlmmj commands *)

Section Args.
Variable path_Join : string -> string -> string.

(** [switch r.Mode] of [SubRequest.GetArgs]: the flag, or the error. *)
Definition SubRequest_subType (mode : UserType) : string + error :=
  if decide (mode = Moderator \/ mode = Owner) then
    inr (NewError ("Invalid subscription type " ++ UserType_String mode
                   ++ " for subscription"))
  else if decide (mode = Subscriber) then inl ""
  else if decide (mode = Digest) then inl "-d"
  else if decide (mode = Nomail) then inl "-n"
  else inr (NewError "Unkown subscription type").

Definition SubRequest_GetArgs (r : SubRequest) : list string * option error :=
  match SubRequest_subType (sub_Mode r) with
  | inr e => ([], Some e)
  | inl subType =>
      let args := ["-L"; listDir path_Join (sub_Spool r) (sub_Name r);
                   "-a"; sub_Mail r] in
      let args := if decide (subType = "") then args else args ++ [subType] in
      let args := if sub_WelcomeMail r then args ++ ["-c"] else args in
      let args := if sub_ConfirmationMail r then args ++ ["-C"] else args in
      let args := if sub_ForceSubscription r then args ++ ["-f"] else args in
      let args := if decide (sub_ModerationString r = "") then args
                  else args ++ ["-m"; sub_ModerationString r] in
      let args := if sub_BeQuiet r then args ++ ["-q"] else args in
      let args := if sub_MailAlreadySubscribed r then args else args ++ ["-s"] in
      (args, None)
  end.

(** [switch r.Mode] of [UnsubRequest.GetArgs]. *)
Definition UnsubRequest_subType (mode : UserType) : string + error :=
  if decide (mode = Moderator \/ mode = Owner) then
    inr (NewError ("Invalid subscription type " ++ UserType_String mode
                   ++ " for unsubscription"))
  else if decide (mode = Subscriber) then inl "-N"
  else if decide (mode = Digest) then inl "-d"
  else if decide (mode = Nomail) then inl "-n"
  else if decide (mode = -1) then inl ""
  else inr (NewError "Unkown subscription type").

Definition UnsubRequest_GetArgs (r : UnsubRequest) : list string * option error :=
  match UnsubRequest_subType (unsub_Mode r) with
  | inr e => ([], Some e)
  | inl subType =>
      let args := ["-L"; listDir path_Join (unsub_Spool r) (unsub_Name r)] in
      let args := if decide (subType = "") then args else args ++ [subType] in
      let args := if unsub_GoodBye r then args ++ ["-c"] else args in
      let args := if unsub_ConfirmationMail r then args ++ ["-C"] else args in
      let args := if unsub_BeQuiet r then args ++ ["-q"] else args in
      let args := if unsub_MailNotSubscribed r then args else args ++ ["-s"] in
      (args, None)
  end.

Definition GetMakeMLArgs (spool name domain owner lang : string)
  : list string * option error :=
  (["-L"; name; "-d"; domain; "-o"; owner; "-l"; lang; "-s"; spool], None).

Definition GetListArgs_subType (mode : UserType) : string + error :=
  if decide (mode = -1) then inl ""
  else if decide (mode = Digest) then inl "-d"
  else if decide (mode = Moderator) then inl "-m"
  else if decide (mode = Nomail) then inl "-n"
  else if decide (mode = Owner) then inl "-o"
  else if decide (mode = Subscriber) then inl "-s"
  else inr (NewError "Unkown subscription type").

Definition GetListArgs (spool name : string) (mode : UserType) (count : bool)
  : list string * option error :=
  match GetListArgs_subType mode with
  | inr e => ([], Some e)
  | inl subType =>
      let args := ["-L"; listDir path_Join spool name] in
      let args := if decide (subType = "") then args else args ++ [subType] in
      let args := if count then args ++ ["-c"] else args in
      (args, None)
  end.
End Args.

(** ** [wrapper.go]: [DockerHandler] *)

(** What one POST to the service comes to: no usable answer (the request
    could not be built or sent, or the body could not be decoded), or the
    decoded answer. *)
Inductive http_result : Type :=
| HttpFail (e : error)
| HttpResponse (ReturnCode : Z) (Output : string).

(** The world of a [DockerHandler]: the service behind [handler.URL] and the
    commands, with their arguments, that [post] has been called with so far
    (whether or not the request got as far as the service). *)
Record docker (X : Type) : Type := mkDocker {
  service : X;
  posts : list (string * list string)
}.

Arguments mkDocker {X} _ _.
Arguments service {X} _.
Arguments posts {X} _.

Module DockerHandler.
Section WithService.
Context {X : Type}.
Variable path_Join : string -> string -> string.
(** [handler.Client.Do] with the encoding and decoding around it. *)
Variable transport : string -> list string -> X -> http_result * X.
(** Go's [bufio.Scanner] over lines, [strings.TrimSpace], [strconv.Atoi]. *)
Variable ScanLines : string -> list string * option error.
Variable TrimSpace : string -> string.
Variable Atoi : string -> Z * option error.

Definition post (cmd : string) (args : list string) (w : docker X)
  : (string * option error) * docker X :=
  let '(r, x') := transport cmd args (service w) in
  let w' := mkDocker x' (posts w ++ [(cmd, args)]) in
  match r with
  | HttpFail e => (("", Some e), w')
  | HttpResponse rc out =>
      if decide (rc = 0) then ((out, None), w')
      else ((out, Some (NewError out)), w')
  end.

Definition parseListOutput (out : string) : list string * option error :=
  let '(lines, err) := ScanLines out in
  match err with
  | Some e => ([], Some e)
  | None => (filter (fun next => next <> "") (TrimSpace <$> lines), None)
  end.

Definition parseCountOutput (out : string) : Z * option error :=
  Atoi (TrimSpace out).

Definition MakeML (spool name domain owner lang : string) (w : docker X)
  : (string * option error) * docker X :=
  match GetMakeMLArgs spool name domain owner lang with
  | (_, Some argsErr) => (("", Some argsErr), w)
  | (args, None) => post "mlmmj-make-ml" args w
  end.

Definition Sub (r : SubRequest) (w : docker X)
  : (string * option error) * docker X :=
  match SubRequest_GetArgs path_Join r with
  | (_, Some argsErr) => (("", Some argsErr), w)
  | (args, None) => post "mlmmj-sub" args w
  end.

Definition Unsub (r : UnsubRequest) (w : docker X)
  : (string * option error) * docker X :=
  match UnsubRequest_GetArgs path_Join r with
  | (_, Some argsErr) => (("", Some argsErr), w)
  | (args, None) => post "mlmmj-unsub" args w
  end.

Definition List (spool name : string) (mode : UserType) (w : docker X)
  : (list string * option error) * docker X :=
  match GetListArgs path_Join spool name mode false with
  | (_, Some argsErr) => (([], Some argsErr), w)
  | (args, None) =>
      match post "mlmmj-list" args w with
      | ((_, Some err), w') => (([], Some err), w')
      | ((out, None), w') => (parseListOutput out, w')
      end
  end.

Definition Count (spool name : string) (mode : UserType) (w : docker X)
  : (Z * option error) * docker X :=
  match GetListArgs path_Join spool name mode true with
  | (_, Some argsErr) => ((-1, Some argsErr), w)
  | (args, None) =>
      match post "mlmmj-list" args w with
      | ((_, Some err), w') => ((-1, Some err), w')
      | ((out, None), w') => (parseCountOutput out, w')
      end
  end.

(** [DockerHandler] implements [MLMMJHandler]. *)
Definition handler : MLMMJHandler (docker X) := {|
  handler_MakeML := MakeML;
  handler_Sub := Sub;
  handler_Unsub := Unsub;
  handler_List := List;
  handler_Count := Count
|}.
End WithService.
End DockerHandler.

(** ** Observations on states and traces *)

Section Observations.
Context {W : Type}.

(** The mutex registered for a name, if any. *)
Definition registered (s : state W) (name : string) : option loc :=
  match lists (lm s) with
  | None => None
  | Some mp => mp !! name
  end.

(** No writer holds [lm.mutex]: [RLock] on it goes through. *)
Definition top_readable (s : state W) : Prop :=
  writer (mutex (lm s)) = false.

(** Nobody holds [lm.mutex]: [Lock] on it goes through. *)
Definition top_idle (s : state W) : Prop :=
  mutex (lm s) = zeroRWMutex.

(** The events of a run from [s] to [s']. *)
Definition events_of (s s' : state W) (evs : list event) : Prop :=
  trace s' = trace s ++ evs.
(** The state in which a caller waits, or goes on, with [lm.mutex] held
    for reading. *)
Definition top_rlocked (s : state W) : state W :=
  mkState (mkListManager (mkRWMutex false (S (readers (mutex (lm s)))))
                         (lists (lm s)))
          (heap s) (ext s) (trace s ++ [EvSync Top OpRLock]).

(** [ReadList] ([op = OpRLock], [un = OpRUnlock]) and [WriteList]
    ([op = OpLock], [un = OpUnlock]) have the same shape. *)
Definition acquire (op un : lockop) (name : string) : M W (bool * M W unit) :=
  bind (sync Top OpRLock) (fun _ =>
  defer (sync Top OpRUnlock)
    (bind (map_load name) (fun m =>
       match m with
       | None => ret (false, ret tt)
       | Some m => bind (sync (Res m) op) (fun _ => ret (true, sync (Res m) un))
       end))).

End Observations.

Definition is_release (e : event) : bool :=
  match e with EvRelease => true | _ => false end.

Definition is_call (e : event) : bool :=
  match e with EvCall _ _ _ => true | _ => false end.

(** A guard is acquired by [Lock] or [RLock] on the mutex of a list. *)
Definition is_acquire (e : event) : bool :=
  match e with
  | EvSync (Res _) OpLock | EvSync (Res _) OpRLock => true
  | _ => false
  end.

Definition count_events (p : event -> bool) (evs : list event) : nat :=
  length (filter (fun e => p e = true) evs).

Definition is_unlock (e : event) : bool :=
  match e with
  | EvSync (Res _) OpUnlock | EvSync (Res _) OpRUnlock => true
  | _ => false
  end.

(** The first non-nil error of a list of errors. *)
Fixpoint first_error (errs : list (option error)) : option error :=
  match errs with
  | [] => None
  | Some e :: _ => Some e
  | None :: errs' => first_error errs'
  end.

Section Guards.
Context {W : Type}.

(** The shape the guarded methods of the wrapper share: acquire, defer the
    release, give up on an unwatched list, else run the body. *)
Definition guarded {A} (acq : M W (bool * M W unit)) (zero : A) (body : M W A)
  : M W A :=
  bind acq (fun g =>
    let '(hasList, lock) := g in
    defer (MLMMJWrapper.invoke lock) (if negb hasList then ret zero else body)).

(** [un] undoes [op]. *)
Definition matching (op un : lockop) : Prop :=
  (op = OpLock /\ un = OpUnlock) \/ (op = OpRLock /\ un = OpRUnlock).

(** A caller of [ReadList] ([op = OpRLock]) or [WriteList] ([op = OpLock])
    for [key] does not have to wait: no writer holds the top-level lock, and
    if [key] is registered its mutex can be taken at once. *)
Definition guard_free (op : lockop) (s : state W) (key : string) : Prop :=
  top_readable s
  /\ forall l, registered s key = Some l ->
               exists mu mu', heap s !! l = Some mu /\ rw_step op mu = Done mu'.

(** A body that, started in the world [w], returns, calls the handler and
    nothing else, and leaves the registry alone. *)
Definition calls_only {A} (body : M W A) (w : W) : Prop :=
  exists a w' evs,
    Forall (fun e => is_call e = true) evs
    /\ evs <> []
    /\ forall s1 : state W,
        ext s1 = w ->
        body s1 = Returns a (mkState (lm s1) (heap s1) w' (trace s1 ++ evs)).

(** The run of [c] from [s] is made of three parts, in this order. First
    [acq] ([ReadList] or [WriteList] for the list of [c]) runs and returns a
    flag [found] and a function [release]. Then come the calls of the
    handler, [calls], and nothing else: at least one when the list was
    found, none when it was not. Last, [release], the very function [acq]
    returned, is called (the event [EvRelease]) and returns; the state it
    leaves, [s3], is the state in which [c] returns. So the release function
    was called exactly once, after the last call of the handler; as many
    list mutexes were unlocked as were locked, and every lock is left as it
    was found. *)
Definition releases_once {A} (acq : M W (bool * M W unit)) (c : M W A)
    (s : state W) : Prop :=
  exists found release s1 calls w' a s3 evs,
    acq s = Returns (found, release) s1
    /\ Forall (fun e => is_call e = true) calls
    /\ (found = true -> calls <> [])
    /\ (found = false -> calls = [] /\ w' = ext s1)
    /\ release (log EvRelease
                   (mkState (lm s1) (heap s1) w' (trace s1 ++ calls)))
       = Returns tt s3
    /\ c s = Returns a s3
    /\ events_of s s3 evs
    /\ count_events is_release evs = 1%nat
    /\ count_events is_unlock evs = count_events is_acquire evs
    /\ lm s3 = lm s /\ heap s3 = heap s.

(** The state after a guarded method met an unwatched list. *)
Definition turned_away (s : state W) : state W :=
  mkState (lm s) (heap s) (ext s)
          (trace s ++ [EvSync Top OpRLock; EvSync Top OpRUnlock; EvRelease]).
End Guards.

(** ** The fan-out, query by query *)

Section Queries.
Context {W : Type} {handler : MLMMJHandler W}.

(** The categories, in the order in which the goroutines are started. *)
Definition member_modes : list UserType := [Subscriber; Digest; Nomail].
Definition controller_modes : list UserType := [Owner; Moderator].

(** The queries for the categories [modes] made one after the other in the
    order [sched]: what each one returned, and the world after the last. *)
Fixpoint run_queries (spool name : string) (modes : list UserType)
    (sched : list nat) (w : W)
  : list (nat * (list string * option error)) * W :=
  match sched with
  | [] => ([], w)
  | i :: sched' =>
      let '(r, w1) := handler_List spool name (nth i modes (-1)) w in
      let '(rest, w2) := run_queries spool name modes sched' w1 in
      ((i, r) :: rest, w2)
  end.

(** The data query number [i] returned. *)
Fixpoint answer (out : list (nat * (list string * option error))) (i : nat)
  : list string :=
  match out with
  | [] => []
  | (j, (d, _)) :: out' => if decide (j = i) then d else answer out' i
  end.

Definition query_error (q : nat * (list string * option error)) : option error :=
  snd (snd q).

Definition query_event (spool name : string) (modes : list UserType)
    (q : nat * (list string * option error)) : event :=
  EvCall (CallList spool name (nth (fst q) modes (-1)))
         (RetList (fst (snd q))) (snd (snd q)).
End Queries.

(** ** Discovery, spool by spool *)

(** The spools whose directory was read during the events [evs], in order. *)
Definition queried (evs : list event) : list string :=
  omap (fun e => match e with EvReadDir spool => Some spool | _ => None end) evs.

Section DiscoveryObservations.
Context {W : Type}.
Variable path_Join : string -> string -> string.
Variable ReadDir : string -> list FileInfo * option error.

(** The names [GetLists] returns for a spool. *)
Definition discovered (spool : string) : list string :=
  match ReadDir spool with
  | (_, Some _) => []
  | (files, None) => fi_Name <$> filter (fun f => fi_IsDir f = true) files
  end.

(** The spool of goroutine number [i], and the names it registers. *)
Definition spool_at (spoolList : list string) (i : nat) : string :=
  nth i spoolList "".

Definition names_at (spoolList : list string) (i : nat) : list string :=
  listDir path_Join (spool_at spoolList i) <$> discovered (spool_at spoolList i).

(** The errors of the discovery goroutines, in the order in which they ran. *)
Definition discovery_errors (spoolList : list string) (sched : list nat)
  : list (option error) :=
  (fun i => snd (ReadDir (spool_at spoolList i))) <$> sched.

(** From [s] to [s'] the names [added] were registered, each either already
    there or with a mutex allocated on the way, unlocked; the spools [qs]
    were read; the top-level lock is free again and nothing else changed. *)
Definition extends (s s' : state W) (added qs : list string) : Prop :=
  top_idle s' /\ ext s' = ext s
  /\ (exists evs, trace s' = trace s ++ evs /\ queried evs = qs)
  /\ exists mp mp' k,
      lists (lm s) = Some mp /\ lists (lm s') = Some mp'
      /\ heap s' = heap s ++ replicate k zeroRWMutex
      /\ (forall key, is_Some (mp' !! key) <-> is_Some (mp !! key) \/ key ∈ added)
      /\ (forall key l, mp' !! key = Some l ->
                        mp !! key = Some l
                        \/ (length (heap s) <= l < length (heap s'))%nat).
End DiscoveryObservations.

(** ** A small installation, for the examples *)

Module Sample.
(** [path.Join] on two clean, non-empty elements. *)
Definition join (spool name : string) : string := spool ++ "/" ++ name.

Definition alpha : string := "/var/spool/mlmmj/alpha".
Definition beta : string := "/var/spool/mlmmj/beta".

(** Two spools hold lists; every other directory cannot be read. *)
Definition readdir (spool : string) : list FileInfo * option error :=
  if decide (spool = "/var/spool/mlmmj") then
    ([mkFileInfo "alpha" true; mkFileInfo "README" false], None)
  else if decide (spool = "/srv/lists") then
    ([mkFileInfo "gamma" true], None)
  else ([], Some (NewError ("open " ++ spool ++ ": no such file or directory"))).

(** One list, [alpha], is registered; its mutex is free. *)
Definition watching {W} (w : W) : state W :=
  mkState (mkListManager zeroRWMutex (Some {[ alpha := 0%nat ]}))
          [zeroRWMutex] w [].

(** The same, while some goroutine holds the mutex of [alpha] for writing. *)
Definition writing {W} (w : W) : state W :=
  mkState (mkListManager zeroRWMutex (Some {[ alpha := 0%nat ]}))
          [mkRWMutex true 0] w [].

(** Two lists, [alpha] and [beta], are registered; their mutexes are free. *)
Definition watching_two {W} (w : W) : state W :=
  mkState (mkListManager zeroRWMutex
                         (Some (<[ beta := 1%nat ]> {[ alpha := 0%nat ]})))
          [zeroRWMutex; zeroRWMutex] w [].

(** A handler whose subscriber and digest queries fail. *)
Definition flaky : MLMMJHandler unit := {|
  handler_MakeML := fun spool name domain owner lang w => (("created", None), w);
  handler_Sub := fun r w => (("subscribed", None), w);
  handler_Unsub := fun r w => (("unsubscribed", None), w);
  handler_List := fun spool name mode w =>
    if decide (mode = Subscriber) then (([], Some (NewError "subscribers: timeout")), w)
    else if decide (mode = Digest) then (([], Some (NewError "digest: timeout")), w)
    else ((["carol@example.org"], None), w);
  handler_Count := fun spool name mode w => ((1, None), w)
|}.

(** A service that answers every request with return code 0. *)
Definition transport (cmd : string) (args : list string) (x : unit)
  : http_result * unit :=
  (HttpResponse 0 "", x).

(** Stand-ins for Go's scanner and parsers, on output that needs no
    trimming. *)
Definition scan (out : string) : list string * option error := ([out], None).
Definition trim (out : string) : string := out.
Definition atoi (out : string) : Z * option error := (0, None).

Definition docker_handler : MLMMJHandler (docker unit) :=
  DockerHandler.handler join transport scan trim atoi.

(** The request to take [a@example.com] off [alpha] as an owner. *)
Definition unsub_owner : UnsubRequest :=
  mkUnsubRequest "a@example.com" "alpha" "/var/spool/mlmmj"
                 true false false false Owner.
End Sample.

(** ** The shape of a registry *)

(** Every registered name has a mutex of its own, and that mutex has been
    allocated. *)
Definition well_formed {W : Type} (s : state W) : Prop :=
  (forall name l, registered s name = Some l -> (l < length (heap s))%nat)
  /\ (forall n1 n2 l,
        registered s n1 = Some l -> registered s n2 = Some l -> n1 = n2).

(** What holds of the registry between two calls of its methods. *)
Definition settled {W : Type} (s : state W) : Prop :=
  top_idle s /\ lists (lm s) <> None /\ well_formed s.

(** ** [Init] for a single spool *)

(** The [Init] of the [ListManager] that knows one spool only: it registers
    the lists under their bare names and gives up on a directory that cannot
    be read. *)
Module SingleSpool.
Section WithWorld.
Context {W : Type}.
Variable ReadDir : string -> list FileInfo * option error.

Fixpoint Init_add (found : list string) : M W unit :=
  match found with
  | [] => ret tt
  | list :: found' =>
      ListManagerImpl.AddList list ;;
      Init_add found'
  end.

Definition Init (spool : string) : M W (option error) :=
  map_make ;;
  r <- GetLists ReadDir spool ;;
  let '(found, err) := r in
  match err with
  | Some e => ret (Some e)
  | None => Init_add found ;; ret None
  end.
End WithWorld.
End SingleSpool.

(** * Properties *)

(** ** The methods of [ListManager], one run at a time *)

Ltac unfold_go :=
  unfold defer, bind, ret, panic, park, emit, sync, new_RWMutex, map_load,
    map_store, map_delete, map_make, log, get_mutex, set_mutex; simpl.

Ltac trace_eq := repeat rewrite <- app_assoc; simpl; try reflexivity.

Section ListManagerFacts.
Context {W : Type}.
Import ListManagerImpl.
Implicit Types (s : state W) (name : string) (l : loc) (mp : gmap string loc).

Lemma AddList_absent s name mp :
  top_idle s ->
  lists (lm s) = Some mp ->
  mp !! name = None ->
  AddList name s
  = Returns true
      (mkState (mkListManager zeroRWMutex (Some (<[name := length (heap s)]> mp)))
               (heap s ++ [zeroRWMutex]) (ext s)
               (trace s ++ [EvSync Top OpLock; EvSync Top OpUnlock])).
Proof.
  destruct s as [[mu ls] hp x tr]; unfold top_idle; simpl.
  intros -> -> Hno. unfold AddList. unfold_go. rewrite Hno. simpl.
  trace_eq.
Qed.

Lemma AddList_present s name l :
  top_idle s ->
  registered s name = Some l ->
  AddList name s
  = Returns false
      (mkState (lm s) (heap s) (ext s)
               (trace s ++ [EvSync Top OpLock; EvSync Top OpUnlock])).
Proof.
  destruct s as [[mu ls] hp x tr]; unfold top_idle, registered; simpl.
  intros -> Hreg. destruct ls as [mp|]; [|discriminate].
  unfold AddList. unfold_go. rewrite Hreg. simpl. trace_eq.
Qed.

Lemma AddList_nil_map s name :
  top_idle s ->
  lists (lm s) = None ->
  AddList name s
  = Panics "assignment to entry in nil map"
      (mkState (lm s) (heap s ++ [zeroRWMutex]) (ext s)
               (trace s ++ [EvSync Top OpLock; EvSync Top OpUnlock])).
Proof.
  destruct s as [[mu ls] hp x tr]; unfold top_idle; simpl.
  intros -> ->. unfold AddList. unfold_go. trace_eq.
Qed.

Lemma AddList_busy s name :
  rw_step OpLock (mutex (lm s)) = Wait ->
  AddList name s = Blocks s.
Proof.
  intros Hw. unfold AddList, bind, sync; cbn [get_mutex]. rewrite Hw. reflexivity.
Qed.

Lemma RemoveList_present s name mp l :
  top_idle s ->
  lists (lm s) = Some mp ->
  mp !! name = Some l ->
  RemoveList name s
  = Returns true
      (mkState (mkListManager zeroRWMutex (Some (delete name mp)))
               (heap s) (ext s)
               (trace s ++ [EvSync Top OpLock; EvSync Top OpUnlock])).
Proof.
  destruct s as [[mu ls] hp x tr]; unfold top_idle; simpl.
  intros -> -> Hl. unfold RemoveList. unfold_go. rewrite Hl. simpl. trace_eq.
Qed.

Lemma RemoveList_absent s name :
  top_idle s ->
  registered s name = None ->
  RemoveList name s
  = Returns false
      (mkState (lm s) (heap s) (ext s)
               (trace s ++ [EvSync Top OpLock; EvSync Top OpUnlock])).
Proof.
  destruct s as [[mu ls] hp x tr]; unfold top_idle, registered; simpl.
  intros -> Hreg. unfold RemoveList. unfold_go.
  destruct ls as [mp|]; simpl; [rewrite Hreg; simpl|]; trace_eq.
Qed.

Lemma RemoveList_busy s name :
  rw_step OpLock (mutex (lm s)) = Wait ->
  RemoveList name s = Blocks s.
Proof.
  intros Hw. unfold RemoveList, bind, sync; cbn [get_mutex]. rewrite Hw. reflexivity.
Qed.

Lemma ReadList_acquire name :
  @ReadList W name = acquire OpRLock OpRUnlock name.
Proof. reflexivity. Qed.

Lemma WriteList_acquire name :
  @WriteList W name = acquire OpLock OpUnlock name.
Proof. reflexivity. Qed.

Lemma acquire_unregistered op un s name :
  top_readable s ->
  registered s name = None ->
  acquire op un name s
  = Returns (false, ret tt)
      (mkState (lm s) (heap s) (ext s)
               (trace s ++ [EvSync Top OpRLock; EvSync Top OpRUnlock])).
Proof.
  destruct s as [[[w r] ls] hp x tr]; unfold top_readable, registered; simpl.
  intros -> Hreg. unfold acquire. unfold_go.
  destruct ls as [mp|]; simpl; [rewrite Hreg; simpl|]; trace_eq.
Qed.

Lemma acquire_registered op un s name l mu mu' :
  top_readable s ->
  registered s name = Some l ->
  heap s !! l = Some mu ->
  rw_step op mu = Done mu' ->
  acquire op un name s
  = Returns (true, sync (Res l) un)
      (mkState (lm s) (<[l := mu']> (heap s)) (ext s)
               (trace s ++ [EvSync Top OpRLock; EvSync (Res l) op;
                            EvSync Top OpRUnlock])).
Proof.
  destruct s as [[[w r] ls] hp x tr]; unfold top_readable, registered; simpl.
  intros -> Hreg Hl Hstep. destruct ls as [mp|]; [|discriminate].
  unfold acquire. unfold_go. rewrite Hreg. simpl. rewrite Hl, Hstep. simpl.
  trace_eq.
Qed.

Lemma acquire_waits op un s name l mu :
  top_readable s ->
  registered s name = Some l ->
  heap s !! l = Some mu ->
  rw_step op mu = Wait ->
  acquire op un name s = Blocks (top_rlocked s).
Proof.
  destruct s as [[[w r] ls] hp x tr]; unfold top_readable, registered; simpl.
  intros -> Hreg Hl Hstep. destruct ls as [mp|]; [|discriminate].
  unfold acquire. unfold_go. rewrite Hreg. simpl. rewrite Hl, Hstep.
  reflexivity.
Qed.
End ListManagerFacts.

(** ** Guards *)

Section GuardFacts.
Context {W : Type}.
Import ListManagerImpl.
Implicit Types (s : state W) (key : string) (l : loc).

Lemma rw_step_matching op un mu mu' :
  matching op un -> rw_step op mu = Done mu' -> rw_step un mu' = Done mu.
Proof.
  destruct mu as [w r].
  intros [[-> ->]|[-> ->]]; simpl; destruct w; try discriminate.
  - destruct r; [|discriminate]. intros [= <-]. reflexivity.
  - intros [= <-]. reflexivity.
Qed.

Lemma guarded_unregistered {A} op un s key (zero : A) (body : M W A) :
  top_readable s ->
  registered s key = None ->
  guarded (acquire op un key) zero body s
  = Returns zero
      (mkState (lm s) (heap s) (ext s)
               (trace s ++ [EvSync Top OpRLock; EvSync Top OpRUnlock; EvRelease])).
Proof.
  intros Htop Hreg. unfold guarded, bind.
  rewrite (acquire_unregistered op un s key Htop Hreg).
  unfold MLMMJWrapper.invoke. unfold_go. trace_eq.
Qed.

Lemma guarded_registered {A} op un s key l mu mu' (zero a : A) (body : M W A)
    (w' : W) (evs : list event) :
  matching op un ->
  top_readable s ->
  registered s key = Some l ->
  heap s !! l = Some mu ->
  rw_step op mu = Done mu' ->
  (forall s1 : state W,
      ext s1 = ext s ->
      body s1 = Returns a (mkState (lm s1) (heap s1) w' (trace s1 ++ evs))) ->
  guarded (acquire op un key) zero body s
  = Returns a
      (mkState (lm s) (heap s) w'
               (trace s ++ [EvSync Top OpRLock; EvSync (Res l) op;
                            EvSync Top OpRUnlock]
                  ++ evs ++ [EvRelease; EvSync (Res l) un])).
Proof.
  intros Hm Htop Hreg Hl Hstep Hbody. unfold guarded, bind.
  rewrite (acquire_registered op un s key l mu mu' Htop Hreg Hl Hstep).
  unfold defer. simpl. rewrite Hbody by reflexivity.
  unfold MLMMJWrapper.invoke. unfold_go.
  rewrite list_lookup_insert_eq by (eapply lookup_lt_Some; eassumption).
  rewrite (rw_step_matching op un mu mu' Hm Hstep).
  rewrite list_insert_insert_eq, list_insert_id by assumption.
  trace_eq.
Qed.

Lemma count_events_app p (xs ys : list event) :
  count_events p (xs ++ ys) = (count_events p xs + count_events p ys)%nat.
Proof. unfold count_events. rewrite filter_app, length_app. reflexivity. Qed.

Lemma count_events_calls p (evs : list event) :
  (forall e, is_call e = true -> p e = false) ->
  Forall (fun e => is_call e = true) evs ->
  count_events p evs = 0%nat.
Proof.
  intros Hp Hall. unfold count_events.
  induction Hall as [|e evs He _ IH]; [reflexivity|].
  rewrite filter_cons_False; [assumption|].
  rewrite (Hp e He). discriminate.
Qed.
End GuardFacts.

(** ** The lock registry *)

Section Registry.
Context {W : Type}.
Import ListManagerImpl.
Implicit Types (s : state W) (name : string) (l : loc) (mp : gmap string loc).

(** C7. For a name that is not in the registry, [ReadList] and [WriteList]
    return [false] with a function that does nothing, and the registry
    (the map, the mutexes, the top-level lock) is as it was. *)
Theorem acquire_unknown_name s name :
  top_readable s ->
  registered s name = None ->
  (exists release s',
      ReadList name s = Returns (false, release) s'
      /\ (forall s0 : state W, release s0 = Returns tt s0)
      /\ lm s' = lm s /\ heap s' = heap s /\ ext s' = ext s)
  /\ (exists release s',
      WriteList name s = Returns (false, release) s'
      /\ (forall s0 : state W, release s0 = Returns tt s0)
      /\ lm s' = lm s /\ heap s' = heap s /\ ext s' = ext s).
Proof.
  intros Htop Hreg.
  rewrite ReadList_acquire, WriteList_acquire.
  split; eexists _, _; (split; [apply acquire_unregistered; assumption|]);
    simpl; repeat split; reflexivity.
Qed.
(** C6. On an initialized registry that does not hold [name], a first
    [AddList] returns [true] and registers a mutex that was not there before,
    unlocked (the map has one entry more); a second [AddList] returns [false]
    and leaves the map and every mutex as they were, so [name] still maps to
    the same mutex. And whenever [name] is registered with a mutex [l],
    [RemoveList] followed by [AddList] registers a mutex other than [l],
    allocated anew and unlocked; the mutex [l] itself is left as it was. *)
Theorem AddList_twice_and_readd :
  (forall s name mp,
      top_idle s ->
      lists (lm s) = Some mp ->
      mp !! name = None ->
      exists s1 s2,
        AddList name s = Returns true s1
        /\ lists (lm s1) = Some (<[name := length (heap s)]> mp)
        /\ size (<[name := length (heap s)]> mp) = S (size mp)
        /\ heap s !! length (heap s) = None
        /\ heap s1 !! length (heap s) = Some zeroRWMutex
        /\ AddList name s1 = Returns false s2
        /\ lm s2 = lm s1 /\ heap s2 = heap s1
        /\ registered s2 name = Some (length (heap s)))
  /\ (forall s name l,
      top_idle s ->
      registered s name = Some l ->
      (l < length (heap s))%nat ->
      exists s1 s2 l',
        RemoveList name s = Returns true s1
        /\ registered s1 name = None
        /\ AddList name s1 = Returns true s2
        /\ registered s2 name = Some l'
        /\ l' <> l
        /\ heap s !! l' = None
        /\ heap s2 !! l' = Some zeroRWMutex
        /\ heap s2 !! l = heap s !! l).
Proof.
  split.
  - intros s name mp Hidle Hls Hno.
    eexists _, _. split; [apply AddList_absent; eassumption|]. simpl.
    split; [reflexivity|].
    split; [apply map_size_insert_None; assumption|].
    split; [apply lookup_ge_None_2; lia|].
    split; [apply list_lookup_middle; reflexivity|].
    split.
    { eapply AddList_present; [reflexivity|].
      unfold registered; simpl. apply lookup_insert_eq. }
    simpl. repeat split; try reflexivity.
    unfold registered; simpl. apply lookup_insert_eq.
  - intros s name l Hidle Hreg Hl.
    unfold registered in Hreg.
    destruct (lists (lm s)) as [mp|] eqn:Hls; [|discriminate].
    eexists _, _, (length (heap s)).
    split; [eapply RemoveList_present; eassumption|].
    split; [unfold registered; simpl; apply lookup_delete_eq|].
    split.
    { eapply AddList_absent; [reflexivity|reflexivity|].
      apply lookup_delete_eq. }
    simpl.
    split; [unfold registered; simpl; apply lookup_insert_eq|].
    split; [lia|].
    split; [apply lookup_ge_None_2; lia|].
    split; [apply list_lookup_middle; reflexivity|].
    apply lookup_app_l; assumption.
Qed.

(** C9, as the code has it. [ReadList] and [WriteList] take the top-level
    lock for reading before the lookup and give it back when they return,
    that is after the mutex of the list has been taken: the top-level lock
    is held across that acquisition, and not beyond it (the mutex of the
    list stays held after the return). A caller that has to wait for the
    mutex of the list waits with the top-level lock held for reading, and
    in that state [AddList] and [RemoveList] wait too, whatever name they
    are called with. *)
Theorem top_lock_spans_the_acquisition s name l mu :
  top_readable s ->
  registered s name = Some l ->
  heap s !! l = Some mu ->
  (forall mu', rw_step OpRLock mu = Done mu' ->
     exists release s',
       ReadList name s = Returns (true, release) s'
       /\ events_of s s' [EvSync Top OpRLock; EvSync (Res l) OpRLock;
                          EvSync Top OpRUnlock]
       /\ lm s' = lm s /\ heap s' !! l = Some mu')
  /\ (forall mu', rw_step OpLock mu = Done mu' ->
     exists release s',
       WriteList name s = Returns (true, release) s'
       /\ events_of s s' [EvSync Top OpRLock; EvSync (Res l) OpLock;
                          EvSync Top OpRUnlock]
       /\ lm s' = lm s /\ heap s' !! l = Some mu')
  /\ (rw_step OpRLock mu = Wait -> ReadList name s = Blocks (top_rlocked s))
  /\ (rw_step OpLock mu = Wait -> WriteList name s = Blocks (top_rlocked s))
  /\ readers (mutex (lm (top_rlocked s))) = S (readers (mutex (lm s)))
  /\ (forall other,
        AddList other (top_rlocked s) = Blocks (top_rlocked s)
        /\ RemoveList other (top_rlocked s) = Blocks (top_rlocked s)).
Proof.
  intros Htop Hreg Hl.
  rewrite ReadList_acquire, WriteList_acquire.
  split; [|split; [|split; [|split; [|split]]]].
  - intros mu' Hstep. eexists _, _.
    split; [exact (acquire_registered _ _ s name l mu mu' Htop Hreg Hl Hstep)|].
    simpl. split; [reflexivity|]. split; [reflexivity|].
    apply list_lookup_insert_eq. eapply lookup_lt_Some; eassumption.
  - intros mu' Hstep. eexists _, _.
    split; [exact (acquire_registered _ _ s name l mu mu' Htop Hreg Hl Hstep)|].
    simpl. split; [reflexivity|]. split; [reflexivity|].
    apply list_lookup_insert_eq. eapply lookup_lt_Some; eassumption.
  - intros Hwait. exact (acquire_waits _ _ s name l mu Htop Hreg Hl Hwait).
  - intros Hwait. exact (acquire_waits _ _ s name l mu Htop Hreg Hl Hwait).
  - reflexivity.
  - intros other. split; [apply AddList_busy|apply RemoveList_busy]; reflexivity.
Qed.
End Registry.

Lemma acquire_unknown_name_witness :
  (exists release s',
      ListManagerImpl.ReadList Sample.beta (Sample.watching tt)
      = Returns (false, release) s'
      /\ (forall s0 : state unit, release s0 = Returns tt s0)
      /\ lm s' = lm (Sample.watching tt) /\ heap s' = heap (Sample.watching tt)
      /\ ext s' = ext (Sample.watching tt))
  /\ (exists release s',
      ListManagerImpl.WriteList Sample.beta (Sample.watching tt)
      = Returns (false, release) s'
      /\ (forall s0 : state unit, release s0 = Returns tt s0)
      /\ lm s' = lm (Sample.watching tt) /\ heap s' = heap (Sample.watching tt)
      /\ ext s' = ext (Sample.watching tt)).
Proof.
  apply (acquire_unknown_name (Sample.watching tt) Sample.beta).
  - reflexivity.
  - vm_compute. reflexivity.
Defined.

Lemma AddList_twice_and_readd_witness :
  (exists s1 s2,
      ListManagerImpl.AddList Sample.beta (Sample.watching tt) = Returns true s1
      /\ ListManagerImpl.AddList Sample.beta s1 = Returns false s2
      /\ registered s2 Sample.beta = Some 1%nat)
  /\ (exists s1 s2 l',
      ListManagerImpl.RemoveList Sample.alpha (Sample.watching tt) = Returns true s1
      /\ ListManagerImpl.AddList Sample.alpha s1 = Returns true s2
      /\ registered s2 Sample.alpha = Some l' /\ l' <> 0%nat).
Proof.
  destruct (@AddList_twice_and_readd unit) as [Hadd Hre]. split.
  - destruct (Hadd (Sample.watching tt) Sample.beta {[ Sample.alpha := 0%nat ]})
      as (s1 & s2 & H1 & _ & _ & _ & _ & H2 & _ & _ & H3).
    + reflexivity.
    + reflexivity.
    + vm_compute. reflexivity.
    + exists s1, s2. repeat split; assumption.
  - destruct (Hre (Sample.watching tt) Sample.alpha 0%nat)
      as (s1 & s2 & l' & H1 & _ & H2 & H3 & H4 & _).
    + reflexivity.
    + vm_compute. reflexivity.
    + simpl. lia.
    + exists s1, s2, l'. repeat split; assumption.
Defined.


(** ** The wrapper *)

Section WrapperFacts.
Context {W : Type} {handler : MLMMJHandler W}.
Variable path_Join : string -> string -> string.
Import ListManagerImpl.
Implicit Types (s : state W) (key spool name : string) (l : loc).

Lemma call_returns {A} (c : hcall) (wrap : A -> hret)
    (method : W -> (A * option error) * W) s :
  MLMMJWrapper.call c wrap method s
  = Returns (fst (method (ext s)))
      (mkState (lm s) (heap s) (snd (method (ext s)))
               (trace s ++ [EvCall c (wrap (fst (fst (method (ext s)))))
                                   (snd (fst (method (ext s))))])).
Proof.
  unfold MLMMJWrapper.call. destruct (method (ext s)) as [r w']. reflexivity.
Qed.

(** C1. When the list a method names is not in the registry, [Sub], [Unsub],
    [List], [ListAllMembers], [ListAllControllers] and [Count] return
    [UnwatchedList] with the zero result. The run takes and gives back the
    top-level read lock and then calls the release function it got, and does
    nothing else: no call of the handler, no change to the registry or to
    the handler's world. *)
Theorem unwatched_list_is_turned_away s spool name :
  top_readable s ->
  registered s (listDir path_Join spool name) = None ->
  (forall r, sub_Spool r = spool -> sub_Name r = name ->
             MLMMJWrapper.Sub path_Join r s
             = Returns ("", Some UnwatchedList) (turned_away s))
  /\ (forall r, unsub_Spool r = spool -> unsub_Name r = name ->
                MLMMJWrapper.Unsub path_Join r s
                = Returns ("", Some UnwatchedList) (turned_away s))
  /\ (forall mode,
         MLMMJWrapper.List path_Join spool name mode s
         = Returns ([], Some UnwatchedList) (turned_away s))
  /\ (forall sched,
         MLMMJWrapper.ListAllMembers path_Join sched spool name s
         = Returns ([], [], [], Some UnwatchedList) (turned_away s))
  /\ (forall sched,
         MLMMJWrapper.ListAllControllers path_Join sched spool name s
         = Returns ([], [], Some UnwatchedList) (turned_away s))
  /\ (forall mode,
         MLMMJWrapper.Count path_Join spool name mode s
         = Returns (-1, Some UnwatchedList) (turned_away s))
  /\ count_events is_call
        [EvSync Top OpRLock; EvSync Top OpRUnlock; EvRelease] = 0%nat
  /\ count_events is_release
        [EvSync Top OpRLock; EvSync Top OpRUnlock; EvRelease] = 1%nat.
Proof.
  intros Htop Hreg.
  repeat split.
  - intros r Hs Hn. subst.
    exact (guarded_unregistered OpLock OpUnlock s _ _ _ Htop Hreg).
  - intros r Hs Hn. subst.
    exact (guarded_unregistered OpLock OpUnlock s _ _ _ Htop Hreg).
  - intros mode. exact (guarded_unregistered OpRLock OpRUnlock s _ _ _ Htop Hreg).
  - intros sched. exact (guarded_unregistered OpRLock OpRUnlock s _ _ _ Htop Hreg).
  - intros sched. exact (guarded_unregistered OpRLock OpRUnlock s _ _ _ Htop Hreg).
  - intros mode. exact (guarded_unregistered OpRLock OpRUnlock s _ _ _ Htop Hreg).
Qed.

(** C4. [MakeML] calls the handler first, with no lock taken and no guard
    acquired at any point of the run. If the handler returns an error, that
    is all it does: the registry is as before. If the handler succeeds, the
    joined name is registered by [AddList] under the top-level lock: with a
    new mutex if it was absent, with no change if it was present. *)
Theorem MakeML_registers_on_success s spool name domain owner lang :
  let key := listDir path_Join spool name in
  let res := handler_MakeML spool name domain owner lang (ext s) in
  let called := EvCall (CallMakeML spool name domain owner lang)
                       (RetText (fst (fst res))) (snd (fst res)) in
  (forall e, snd (fst res) = Some e ->
      MLMMJWrapper.MakeML path_Join spool name domain owner lang s
      = Returns (fst res)
          (mkState (lm s) (heap s) (snd res) (trace s ++ [called])))
  /\ (forall mp,
        snd (fst res) = None ->
        top_idle s ->
        lists (lm s) = Some mp ->
        exists s',
          MLMMJWrapper.MakeML path_Join spool name domain owner lang s
          = Returns (fst res) s'
          /\ events_of s s' [called; EvSync Top OpLock; EvSync Top OpUnlock]
          /\ count_events is_acquire
                [called; EvSync Top OpLock; EvSync Top OpUnlock] = 0%nat
          /\ ext s' = snd res
          /\ is_Some (registered s' key)
          /\ match mp !! key with
             | Some l => lm s' = lm s /\ heap s' = heap s
             | None =>
                 lists (lm s') = Some (<[key := length (heap s)]> mp)
                 /\ heap s' = heap s ++ [zeroRWMutex]
             end).
Proof.
  intros key res called. unfold MLMMJWrapper.MakeML, bind.
  rewrite call_returns. fold res. fold called.
  destruct res as [[output err] w'] eqn:Hres. simpl in *. split.
  - intros e ->. reflexivity.
  - intros mp -> Hidle Hls. fold key.
    destruct (mp !! key) as [l|] eqn:Hkey.
    + erewrite AddList_present;
        [|exact Hidle|unfold registered; simpl; rewrite Hls; exact Hkey].
      eexists. split; [reflexivity|]. unfold events_of, registered. simpl.
      rewrite Hls, Hkey. rewrite <- app_assoc.
      repeat split; try reflexivity. eexists; reflexivity.
    + erewrite AddList_absent; [|exact Hidle|exact Hls|exact Hkey].
      eexists. split; [reflexivity|]. unfold events_of, registered. simpl.
      rewrite lookup_insert_eq. rewrite <- app_assoc.
      repeat split; try reflexivity. eexists; reflexivity.
Qed.

Lemma schedules_of_three (sched : list nat) :
  Permutation sched [0; 1; 2]%nat ->
  sched = [0; 1; 2]%nat \/ sched = [0; 2; 1]%nat \/ sched = [1; 0; 2]%nat
  \/ sched = [1; 2; 0]%nat \/ sched = [2; 0; 1]%nat \/ sched = [2; 1; 0]%nat.
Proof.
  intros Hp. symmetry in Hp. apply permutations_Permutation in Hp.
  vm_compute in Hp.
  repeat (apply elem_of_cons in Hp as [->|Hp]; [tauto|]).
  apply elem_of_nil in Hp. contradiction.
Qed.

Lemma schedules_of_two (sched : list nat) :
  Permutation sched [0; 1]%nat ->
  sched = [0; 1]%nat \/ sched = [1; 0]%nat.
Proof.
  intros Hp. symmetry in Hp. apply permutations_Permutation in Hp.
  vm_compute in Hp.
  repeat (apply elem_of_cons in Hp as [->|Hp]; [tauto|]).
  apply elem_of_nil in Hp. contradiction.
Qed.

Lemma first_error_all_nil (errs : list (option error)) :
  first_error errs = None <-> Forall (fun e => e = None) errs.
Proof.
  induction errs as [|[e|] errs IH]; simpl.
  - split; auto.
  - split; [discriminate|]. intros H. inversion H. discriminate.
  - rewrite IH. split; [auto|]. intros H. inversion H. assumption.
Qed.

Lemma first_error_sticks (errs1 errs2 : list (option error)) (e : error) :
  Forall (fun e => e = None) errs1 ->
  first_error (errs1 ++ Some e :: errs2) = Some e.
Proof.
  induction 1 as [|x errs1 -> _ IH]; simpl; auto.
Qed.

Ltac destruct_queries :=
  repeat match goal with
         | |- context [handler_List ?a ?b ?c ?w] =>
             let H := fresh "Hq" in
             destruct (handler_List a b c w) as [[? ?] ?] eqn:H; simpl
         end.

Lemma members_body sched spool name (w : W) :
  Permutation sched [0; 1; 2]%nat ->
  forall s1 : state W,
    ext s1 = w ->
    bind (go_sched sched (MLMMJWrapper.members_go spool name)
                   (mkMembers [] [] [] []))
         (fun v =>
            bind (recv_errors 3 (members_ch v) None)
                 (fun err => ret (subscribers v, digest v, nomail v, err))) s1
    = Returns
        (let out := fst (run_queries spool name member_modes sched w) in
         (answer out 0, answer out 1, answer out 2,
          first_error (query_error <$> out)))
        (mkState (lm s1) (heap s1)
           (snd (run_queries spool name member_modes sched w))
           (trace s1 ++ (query_event spool name member_modes
                           <$> fst (run_queries spool name member_modes sched w)))).
Proof.
  intros Hp s1 <-.
  destruct (schedules_of_three sched Hp) as [-> | [-> | [-> | [-> | [-> | ->]]]]];
    simpl; repeat (unfold bind, MLMMJWrapper.call, ret, log; simpl; destruct_queries);
    unfold query_error; simpl;
    repeat match goal with o : option error |- _ => destruct o end;
    trace_eq.
Qed.

Lemma controllers_body sched spool name (w : W) :
  Permutation sched [0; 1]%nat ->
  forall s1 : state W,
    ext s1 = w ->
    bind (go_sched sched (MLMMJWrapper.controllers_go spool name)
                   (mkControllers [] [] []))
         (fun v =>
            bind (recv_errors 2 (controllers_ch v) None)
                 (fun err => ret (owners v, moderators v, err))) s1
    = Returns
        (let out := fst (run_queries spool name controller_modes sched w) in
         (answer out 0, answer out 1, first_error (query_error <$> out)))
        (mkState (lm s1) (heap s1)
           (snd (run_queries spool name controller_modes sched w))
           (trace s1 ++ (query_event spool name controller_modes
                           <$> fst (run_queries spool name controller_modes sched w)))).
Proof.
  intros Hp s1 <-.
  destruct (schedules_of_two sched Hp) as [-> | ->];
    simpl; repeat (unfold bind, MLMMJWrapper.call, ret, log; simpl; destruct_queries);
    unfold query_error; simpl;
    repeat match goal with o : option error |- _ => destruct o end;
    trace_eq.
Qed.

Lemma run_queries_order spool name modes sched (w : W) :
  fst <$> fst (run_queries spool name modes sched w) = sched.
Proof.
  revert w. induction sched as [|i sched IH]; intros w; simpl; [reflexivity|].
  destruct (handler_List spool name (nth i modes (-1)) w) as [r w1].
  specialize (IH w1).
  destruct (run_queries spool name modes sched w1) as [rest w2].
  simpl in IH. csimpl. rewrite IH. reflexivity.
Qed.

(** C3, as the code has it. On a watched list whose mutex no writer holds,
    and for every order [sched] in which the goroutines get to run,
    [ListAllMembers] returns after all three queries (and
    [ListAllControllers] after both) have been made, each once; it returns
    the data of every query, failed or not, and as its error the first
    non-nil error in the order in which the queries completed. So the
    error of a single failing query is the one returned, with the data of
    the other queries kept, and a success that follows never clears an
    error. The guard is taken once before the queries and released once
    after them. *)
Theorem fan_out_first_completed_error s spool name l mu :
  top_readable s ->
  registered s (listDir path_Join spool name) = Some l ->
  heap s !! l = Some mu ->
  writer mu = false ->
  (forall sched,
      Permutation sched [0; 1; 2]%nat ->
      let ran := run_queries spool name member_modes sched (ext s) in
      MLMMJWrapper.ListAllMembers path_Join sched spool name s
      = Returns
          (answer (fst ran) 0, answer (fst ran) 1, answer (fst ran) 2,
           first_error (query_error <$> fst ran))
          (mkState (lm s) (heap s) (snd ran)
             (trace s ++ [EvSync Top OpRLock; EvSync (Res l) OpRLock;
                          EvSync Top OpRUnlock]
                ++ (query_event spool name member_modes <$> fst ran)
                ++ [EvRelease; EvSync (Res l) OpRUnlock]))
      /\ fst <$> fst ran = sched)
  /\ (forall sched,
        Permutation sched [0; 1]%nat ->
        let ran := run_queries spool name controller_modes sched (ext s) in
        MLMMJWrapper.ListAllControllers path_Join sched spool name s
        = Returns
            (answer (fst ran) 0, answer (fst ran) 1,
             first_error (query_error <$> fst ran))
            (mkState (lm s) (heap s) (snd ran)
               (trace s ++ [EvSync Top OpRLock; EvSync (Res l) OpRLock;
                            EvSync Top OpRUnlock]
                  ++ (query_event spool name controller_modes <$> fst ran)
                  ++ [EvRelease; EvSync (Res l) OpRUnlock]))
        /\ fst <$> fst ran = sched)
  /\ (forall errs1 errs2 e,
        Forall (fun e => e = None) errs1 ->
        first_error (errs1 ++ Some e :: errs2) = Some e)
  /\ (forall errs, first_error errs = None <-> Forall (fun e => e = None) errs).
Proof.
  intros Htop Hreg Hl Hw.
  assert (Hstep : rw_step OpRLock mu = Done (mkRWMutex false (S (readers mu)))).
  { simpl. rewrite Hw. reflexivity. }
  assert (Hm : matching OpRLock OpRUnlock) by (right; split; reflexivity).
  repeat split.
  - exact (guarded_registered OpRLock OpRUnlock s _ l mu _ _ _ _ _ _
             Hm Htop Hreg Hl Hstep (members_body sched spool name (ext s) H)).
  - apply run_queries_order.
  - exact (guarded_registered OpRLock OpRUnlock s _ l mu _ _ _ _ _ _
             Hm Htop Hreg Hl Hstep (controllers_body sched spool name (ext s) H)).
  - apply run_queries_order.
  - apply first_error_sticks; assumption.
  - apply first_error_all_nil.
  - apply first_error_all_nil.
Qed.

Lemma guarded_releases_once {A} op un s key (zero : A) (body : M W A) :
  matching op un ->
  guard_free op s key ->
  calls_only body (ext s) ->
  releases_once (acquire op un key) (guarded (acquire op un key) zero body) s.
Proof.
  intros Hm [Htop Hfree] (a & w' & evs & Hcalls & Hsome & Hbody).
  destruct (registered s key) as [l|] eqn:Hreg.
  - destruct (Hfree l eq_refl) as (mu & mu' & Hl & Hstep).
    assert (Hlt : (l < length (heap s))%nat)
      by (eapply lookup_lt_Some; eassumption).
    exists true, (sync (Res l) un). eexists. exists evs, w', a.
    eexists.
    exists ([EvSync Top OpRLock; EvSync (Res l) op; EvSync Top OpRUnlock]
              ++ evs ++ [EvRelease; EvSync (Res l) un]).
    split; [exact (acquire_registered op un s key l mu mu' Htop Hreg Hl Hstep)|].
    split; [exact Hcalls|]. split; [intros _; exact Hsome|].
    split; [discriminate|]. split.
    { unfold sync, log. simpl.
      rewrite list_lookup_insert_eq by exact Hlt.
      rewrite (rw_step_matching op un mu mu' Hm Hstep).
      rewrite list_insert_insert_eq, list_insert_id by assumption.
      reflexivity. }
    split.
    { rewrite (guarded_registered op un s key l mu mu' zero a body w' evs
                 Hm Htop Hreg Hl Hstep Hbody).
      simpl. repeat rewrite <- app_assoc. reflexivity. }
    split; [unfold events_of; simpl; repeat rewrite <- app_assoc; reflexivity|].
    rewrite !count_events_app.
    rewrite !(count_events_calls _ evs) by
      (assumption || (intros [] ?; simpl in *; congruence)).
    destruct Hm as [[-> ->]|[-> ->]]; repeat split; reflexivity.
  - exists false, (ret tt). eexists. exists [], (ext s), zero.
    eexists. eexists.
    split; [exact (acquire_unregistered op un s key Htop Hreg)|].
    split; [constructor|]. split; [discriminate|].
    split; [intros _; split; reflexivity|].
    split; [reflexivity|]. split.
    { rewrite (guarded_unregistered op un s key zero body Htop Hreg).
      unfold log. simpl. rewrite app_nil_r, <- app_assoc. reflexivity. }
    split.
    { unfold events_of, log. simpl. rewrite app_nil_r, <- app_assoc.
      reflexivity. }
    repeat split; reflexivity.
Qed.

Lemma call_calls_only {A} (c : hcall) (wrap : A -> hret)
    (method : W -> (A * option error) * W) (w : W) :
  calls_only (MLMMJWrapper.call c wrap method) w.
Proof.
  exists (fst (method w)), (snd (method w)),
    [EvCall c (wrap (fst (fst (method w)))) (snd (fst (method w)))].
  split; [repeat constructor|]. split; [discriminate|].
  intros s1 Hw. rewrite call_returns, Hw. reflexivity.
Qed.

Lemma query_events_not_nil spool name modes (sched : list nat) (w : W) :
  sched <> [] ->
  query_event spool name modes <$> fst (run_queries spool name modes sched w)
  <> [].
Proof.
  intros Hsched Hnil. apply fmap_nil_inv in Hnil.
  pose proof (run_queries_order spool name modes sched w) as Hord.
  rewrite Hnil in Hord. simpl in Hord. congruence.
Qed.

Lemma query_events_are_calls spool name modes
    (out : list (nat * (list string * option error))) :
  Forall (fun e => is_call e = true) (query_event spool name modes <$> out).
Proof.
  apply Forall_fmap, Forall_forall. intros q _. reflexivity.
Qed.

(** C8. For a registered list, the function [ReadList] returns undoes the
    [RLock] it took with one [RUnlock], and the one [WriteList] returns
    undoes its [Lock] with one [Unlock]. Every guarded method of the wrapper
    ([Sub], [Unsub], [List], [ListAllMembers], [ListAllControllers],
    [Count]) runs in three parts: [WriteList] or [ReadList] for its list,
    which returns the release function; then the calls of the handler and
    nothing else (none for an unwatched list); then, last, the call of that
    very release function, after which the method returns. So the release
    function of the guard is called exactly once on the way out, after the
    handler, whether the list was unwatched or the handler was called, and
    whatever the handler returned (a result, an error, a cancellation);
    every lock is then as it was before the call. [MakeML] acquires no
    guard, hence has none to release. *)
Theorem release_exactly_once s spool name :
  let key := listDir path_Join spool name in
  (forall l mu,
      top_readable s ->
      registered s key = Some l ->
      heap s !! l = Some mu ->
      (writer mu = false ->
       exists release s1 s2,
         ReadList key s = Returns (true, release) s1
         /\ heap s1 !! l = Some (mkRWMutex false (S (readers mu)))
         /\ release s1 = Returns tt s2
         /\ events_of s1 s2 [EvSync (Res l) OpRUnlock]
         /\ lm s2 = lm s /\ heap s2 = heap s)
      /\ (mu = zeroRWMutex ->
          exists release s1 s2,
            WriteList key s = Returns (true, release) s1
            /\ heap s1 !! l = Some (mkRWMutex true 0)
            /\ release s1 = Returns tt s2
            /\ events_of s1 s2 [EvSync (Res l) OpUnlock]
            /\ lm s2 = lm s /\ heap s2 = heap s))
  /\ (guard_free OpLock s key ->
      (forall r, sub_Spool r = spool -> sub_Name r = name ->
                 releases_once (WriteList key) (MLMMJWrapper.Sub path_Join r) s)
      /\ (forall r, unsub_Spool r = spool -> unsub_Name r = name ->
                    releases_once (WriteList key)
                      (MLMMJWrapper.Unsub path_Join r) s))
  /\ (guard_free OpRLock s key ->
      (forall mode,
          releases_once (ReadList key)
            (MLMMJWrapper.List path_Join spool name mode) s)
      /\ (forall mode,
             releases_once (ReadList key)
               (MLMMJWrapper.Count path_Join spool name mode) s)
      /\ (forall sched,
             Permutation sched [0; 1; 2]%nat ->
             releases_once (ReadList key)
               (MLMMJWrapper.ListAllMembers path_Join sched spool name) s)
      /\ (forall sched,
             Permutation sched [0; 1]%nat ->
             releases_once (ReadList key)
               (MLMMJWrapper.ListAllControllers path_Join sched spool name) s)).
Proof.
  intros key.
  assert (Hw : matching OpLock OpUnlock) by (left; split; reflexivity).
  assert (Hr : matching OpRLock OpRUnlock) by (right; split; reflexivity).
  split; [|split].
  - intros l mu Htop Hreg Hl. split.
    + intros Hwr.
      assert (Hstep : rw_step OpRLock mu = Done (mkRWMutex false (S (readers mu))))
        by (simpl; rewrite Hwr; reflexivity).
      eexists _, _, _. rewrite ReadList_acquire.
      split; [exact (acquire_registered _ _ s key l mu _ Htop Hreg Hl Hstep)|].
      simpl.
      split; [apply list_lookup_insert_eq; eapply lookup_lt_Some; eassumption|].
      unfold sync; simpl.
      rewrite list_lookup_insert_eq by (eapply lookup_lt_Some; eassumption).
      simpl. split; [reflexivity|]. unfold events_of, log; simpl.
      rewrite list_insert_insert_eq.
      destruct mu as [w r]; simpl in *; subst w.
      rewrite list_insert_id by assumption. repeat split; reflexivity.
    + intros ->.
      eexists _, _, _. rewrite WriteList_acquire.
      split; [exact (acquire_registered OpLock OpUnlock s key l zeroRWMutex
                       (mkRWMutex true 0) Htop Hreg Hl eq_refl)|].
      simpl.
      split; [apply list_lookup_insert_eq; eapply lookup_lt_Some; eassumption|].
      unfold sync; simpl.
      rewrite list_lookup_insert_eq by (eapply lookup_lt_Some; eassumption).
      simpl. split; [reflexivity|]. unfold events_of, log; simpl.
      rewrite list_insert_insert_eq.
      rewrite list_insert_id by assumption. repeat split; reflexivity.
  - intros Hfree. split; intros r <- <-.
    + exact (guarded_releases_once _ _ s _ _ _ Hw Hfree (call_calls_only _ _ _ _)).
    + exact (guarded_releases_once _ _ s _ _ _ Hw Hfree (call_calls_only _ _ _ _)).
  - intros Hfree. repeat split.
    + intros mode.
      exact (guarded_releases_once _ _ s _ _ _ Hr Hfree (call_calls_only _ _ _ _)).
    + intros mode.
      exact (guarded_releases_once _ _ s _ _ _ Hr Hfree (call_calls_only _ _ _ _)).
    + intros sched Hp.
      refine (guarded_releases_once _ _ s _ _ _ Hr Hfree _).
      eexists _, _, _. split; [apply query_events_are_calls|].
      split; [|exact (members_body sched spool name (ext s) Hp)].
      apply query_events_not_nil. intros ->.
      apply Permutation_length in Hp. discriminate.
    + intros sched Hp.
      refine (guarded_releases_once _ _ s _ _ _ Hr Hfree _).
      eexists _, _, _. split; [apply query_events_are_calls|].
      split; [|exact (controllers_body sched spool name (ext s) Hp)].
      apply query_events_not_nil. intros ->.
      apply Permutation_length in Hp. discriminate.
Qed.
End WrapperFacts.

(** ** [DockerHandler] behind the wrapper *)

Section DockerFacts.
Context {X : Type}.
Variable path_Join : string -> string -> string.
Variable transport : string -> list string -> X -> http_result * X.
Variable ScanLines : string -> list string * option error.
Variable TrimSpace : string -> string.
Variable Atoi : string -> Z * option error.

(** C2, as the code has it. A request to unsubscribe an owner or a moderator
    is turned down by [UnsubRequest.GetArgs], which [DockerHandler.Unsub]
    calls before it posts anything: the handler returns the error
    "Invalid subscription type ... for unsubscription" and its world, the
    posted requests included, is as before. The wrapper does not look at the
    mode. On a watched list it acquires the write guard (once), calls the
    handler, returns the handler's error and releases the guard; on an
    unwatched list it returns [UnwatchedList] without calling the handler. *)
Theorem Unsub_owner_or_moderator (s : state (docker X)) (r : UnsubRequest) :
  unsub_Mode r = Owner \/ unsub_Mode r = Moderator ->
  let key := listDir path_Join (unsub_Spool r) (unsub_Name r) in
  let err := NewError ("Invalid subscription type "
                       ++ UserType_String (unsub_Mode r)
                       ++ " for unsubscription") in
  let h := DockerHandler.handler path_Join transport ScanLines TrimSpace Atoi in
  UnsubRequest_GetArgs path_Join r = ([], Some err)
  /\ (forall w, DockerHandler.Unsub path_Join transport r w = (("", Some err), w))
  /\ (forall l,
        top_readable s ->
        registered s key = Some l ->
        heap s !! l = Some zeroRWMutex ->
        @MLMMJWrapper.Unsub _ h path_Join r s
        = Returns ("", Some err)
            (mkState (lm s) (heap s) (ext s)
               (trace s ++ [EvSync Top OpRLock; EvSync (Res l) OpLock;
                            EvSync Top OpRUnlock;
                            EvCall (CallUnsub r) (RetText "") (Some err);
                            EvRelease; EvSync (Res l) OpUnlock])))
  /\ (top_readable s ->
      registered s key = None ->
      @MLMMJWrapper.Unsub _ h path_Join r s
      = Returns ("", Some UnwatchedList) (turned_away s)).
Proof.
  intros Hmode key err h.
  assert (Hargs : UnsubRequest_GetArgs path_Join r = ([], Some err)).
  { unfold UnsubRequest_GetArgs, UnsubRequest_subType.
    rewrite decide_True by tauto. reflexivity. }
  assert (Hh : forall w,
             DockerHandler.Unsub path_Join transport r w = (("", Some err), w)).
  { intros w. unfold DockerHandler.Unsub. rewrite Hargs. reflexivity. }
  split; [exact Hargs|]. split; [exact Hh|]. split.
  - intros l Htop Hreg Hl.
    refine (guarded_registered OpLock OpUnlock s key l zeroRWMutex
              (mkRWMutex true 0) _ _ _ (ext s)
              [EvCall (CallUnsub r) (RetText "") (Some err)]
              _ Htop Hreg Hl eq_refl _).
    + left; split; reflexivity.
    + intros s1 Hext. rewrite call_returns. simpl. rewrite Hh, Hext.
      reflexivity.
  - intros Htop Hreg.
    exact (guarded_unregistered OpLock OpUnlock s key _ _ Htop Hreg).
Qed.
End DockerFacts.

(** ** [Init] *)

Section InitFacts.
Context {W : Type}.
Variable path_Join : string -> string -> string.
Variable ReadDir : string -> list FileInfo * option error.
Import ListManagerImpl.
Implicit Types (s : state W) (spool key : string) (mp : gmap string loc).

Lemma GetLists_returns spool s :
  GetLists ReadDir spool s
  = Returns (discovered ReadDir spool, snd (ReadDir spool))
            (log (EvReadDir spool) s).
Proof.
  unfold GetLists, discovered, bind, emit.
  destruct (ReadDir spool) as [files [e|]]; reflexivity.
Qed.

Lemma extends_refl s mp :
  top_idle s -> lists (lm s) = Some mp -> extends s s [] [].
Proof.
  intros Hidle Hls. split; [assumption|]. split; [reflexivity|].
  split; [exists []; split; [symmetry; apply app_nil_r|reflexivity]|].
  exists mp, mp, 0%nat. split; [assumption|]. split; [assumption|].
  split; [symmetry; apply app_nil_r|]. split.
  - intros key. rewrite elem_of_nil. tauto.
  - intros key l Hl. left. assumption.
Qed.

Lemma extends_trans s s1 s2 (a1 a2 q1 q2 : list string) :
  extends s s1 a1 q1 -> extends s1 s2 a2 q2 ->
  extends s s2 (a1 ++ a2) (q1 ++ q2).
Proof.
  intros (_ & Hx1 & (e1 & Ht1 & Hq1) & mp & mp1 & k1 & Hm & Hm1 & Hh1 & Hd1 & Hf1)
         (Hidle & Hx2 & (e2 & Ht2 & Hq2) & mp1' & mp2 & k2 & Hm1' & Hm2 & Hh2 & Hd2 & Hf2).
  rewrite Hm1 in Hm1'. injection Hm1' as <-.
  split; [assumption|]. split; [congruence|]. split.
  { exists (e1 ++ e2). split.
    - rewrite Ht2, Ht1, app_assoc. reflexivity.
    - unfold queried in *. rewrite omap_app. congruence. }
  exists mp, mp2, (k1 + k2)%nat.
  split; [assumption|]. split; [assumption|]. split.
  { rewrite Hh2, Hh1, replicate_add, app_assoc. reflexivity. }
  split.
  - intros key. rewrite Hd2, Hd1, elem_of_app. tauto.
  - intros key l Hl. apply Hf2 in Hl as [Hl|Hl].
    + apply Hf1 in Hl as [Hl|Hl]; [left; assumption|right].
      rewrite Hh2, length_app. lia.
    + right. rewrite Hh1, length_app in Hl. lia.
Qed.

Lemma AddList_extends s key mp :
  top_idle s -> lists (lm s) = Some mp ->
  exists b s', AddList key s = Returns b s' /\ extends s s' [key] [].
Proof.
  intros Hidle Hls. destruct (mp !! key) as [l|] eqn:Hkey.
  - eexists _, _. split.
    { eapply AddList_present; [assumption|].
      unfold registered. rewrite Hls. exact Hkey. }
    split; [exact Hidle|]. split; [reflexivity|].
    split; [eexists; split; reflexivity|].
    exists mp, mp, 0%nat. simpl. split; [assumption|]. split; [assumption|].
    split; [symmetry; apply app_nil_r|]. split.
    + intros key'. rewrite list_elem_of_singleton. split; [tauto|].
      intros [H| ->]; [assumption|]. eexists; eassumption.
    + intros key' l' Hl'. left; assumption.
  - eexists _, _. split; [eapply AddList_absent; eassumption|].
    split; [reflexivity|]. split; [reflexivity|].
    split; [eexists; split; reflexivity|].
    exists mp, (<[key := length (heap s)]> mp), 1%nat. simpl.
    split; [assumption|]. split; [reflexivity|]. split; [reflexivity|]. split.
    + intros key'. rewrite list_elem_of_singleton.
      destruct (decide (key = key')) as [<-|Hne].
      * rewrite lookup_insert_eq. split; [tauto|]. intros _. eexists; reflexivity.
      * rewrite lookup_insert_ne by assumption. split; [tauto|].
        intros [H|H]; [assumption|congruence].
    + intros key' l'. destruct (decide (key = key')) as [<-|Hne].
      * rewrite lookup_insert_eq. intros [= <-]. right.
        rewrite length_app. simpl. lia.
      * rewrite lookup_insert_ne by assumption. tauto.
Qed.

Lemma extends_lists s s' (added qs : list string) :
  extends s s' added qs -> top_idle s' /\ exists mp', lists (lm s') = Some mp'.
Proof.
  intros (Hidle & _ & _ & mp & mp' & k & _ & Hm' & _). eauto.
Qed.

Lemma Init_add_extends spool (found : list string) s mp :
  top_idle s -> lists (lm s) = Some mp ->
  exists s',
    Init_add path_Join spool found s = Returns tt s'
    /\ extends s s' (listDir path_Join spool <$> found) [].
Proof.
  revert s mp. induction found as [|list found IH]; intros s mp Hidle Hls.
  - exists s. split; [reflexivity|]. eapply extends_refl; eassumption.
  - destruct (AddList_extends s (listDir path_Join spool list) mp Hidle Hls)
      as (b & s1 & Hadd & Hext1).
    destruct (extends_lists _ _ _ _ Hext1) as (Hidle1 & mp1 & Hls1).
    destruct (IH s1 mp1 Hidle1 Hls1) as (s2 & Hrest & Hext2).
    exists s2. split.
    + simpl. unfold bind. rewrite Hadd. exact Hrest.
    + exact (extends_trans _ _ _ _ _ _ _ Hext1 Hext2).
Qed.

Lemma log_ReadDir_extends s spool mp :
  top_idle s -> lists (lm s) = Some mp ->
  extends s (log (EvReadDir spool) s) [] [spool].
Proof.
  intros Hidle Hls. split; [exact Hidle|]. split; [reflexivity|].
  split; [eexists; split; reflexivity|].
  exists mp, mp, 0%nat. simpl. split; [assumption|]. split; [assumption|].
  split; [symmetry; apply app_nil_r|]. split.
  - intros key. rewrite elem_of_nil. tauto.
  - intros key l Hl. left; assumption.
Qed.

Lemma Init_go_extends (cap : nat) spool (ch : list (option error)) s mp :
  top_idle s -> lists (lm s) = Some mp ->
  (length ch < cap)%nat ->
  exists s',
    Init_go path_Join ReadDir cap spool ch s
    = Returns (ch ++ [snd (ReadDir spool)]) s'
    /\ extends s s' (listDir path_Join spool <$> discovered ReadDir spool) [spool].
Proof.
  intros Hidle Hls Hcap. unfold Init_go, bind. rewrite GetLists_returns.
  pose proof (log_ReadDir_extends s spool mp Hidle Hls) as Hext0.
  destruct (extends_lists _ _ _ _ Hext0) as (Hidle0 & mp0 & Hls0).
  destruct (Init_add_extends spool (discovered ReadDir spool) _ mp0 Hidle0 Hls0)
    as (s1 & Hadd & Hext1).
  exists s1. rewrite Hadd. unfold chan_send.
  rewrite decide_True by assumption. split; [reflexivity|].
  exact (extends_trans _ _ _ _ _ _ _ Hext0 Hext1).
Qed.

Lemma go_sched_Init (spoolList : list string) (sched : list nat)
    (ch : list (option error)) s mp :
  top_idle s -> lists (lm s) = Some mp ->
  Forall (fun i => (i < length spoolList)%nat) sched ->
  (length ch + length sched <= length spoolList)%nat ->
  exists s',
    go_sched sched (Init_go path_Join ReadDir (length spoolList) <$> spoolList) ch s
    = Returns (ch ++ discovery_errors ReadDir spoolList sched) s'
    /\ extends s s' (sched ≫= names_at path_Join ReadDir spoolList)
                (spool_at spoolList <$> sched).
Proof.
  revert ch s mp. induction sched as [|i sched IH]; intros ch s mp Hidle Hls Hlt Hcap.
  - exists s. split.
    + simpl. unfold discovery_errors. simpl. rewrite app_nil_r. reflexivity.
    + eapply extends_refl; eassumption.
  - inversion Hlt as [|? ? Hi Hlt']; subst. simpl in Hcap.
    assert (Hg : (@Init_go W path_Join ReadDir (length spoolList) <$> spoolList) !! i
                 = Some (Init_go path_Join ReadDir (length spoolList)
                                 (spool_at spoolList i))).
    { rewrite list_lookup_fmap. unfold spool_at.
      destruct (nth_lookup_or_length spoolList i "") as [Hnth|Hge]; [|lia].
      rewrite Hnth. reflexivity. }
    destruct (Init_go_extends (length spoolList) (spool_at spoolList i) ch s mp
                Hidle Hls ltac:(lia)) as (s1 & Hgo & Hext1).
    destruct (extends_lists _ _ _ _ Hext1) as (Hidle1 & mp1 & Hls1).
    destruct (IH (ch ++ [snd (ReadDir (spool_at spoolList i))]) s1 mp1
                 Hidle1 Hls1 Hlt') as (s2 & Hrest & Hext2).
    { rewrite length_app. simpl. lia. }
    exists s2. split.
    + simpl. rewrite Hg. unfold bind. rewrite Hgo, Hrest.
      unfold discovery_errors. simpl. rewrite <- app_assoc. reflexivity.
    + exact (extends_trans _ _ _ _ _ _ _ Hext1 Hext2).
Qed.

Lemma recv_errors_first (buf : list (option error)) (err : option error) s :
  recv_errors (length buf) buf err s
  = Returns (match err with Some _ => err | None => first_error buf end) s.
Proof.
  revert err. induction buf as [|next buf IH]; intros err; simpl.
  - destruct err; reflexivity.
  - unfold bind. simpl. rewrite IH. destruct err, next; reflexivity.
Qed.

Lemma spools_of_seq (spoolList : list string) :
  spool_at spoolList <$> seq 0 (length spoolList) = spoolList.
Proof.
  apply list_eq. intros i. rewrite list_lookup_fmap.
  destruct (decide (i < length spoolList)%nat) as [Hi|Hi].
  - rewrite lookup_seq_lt by assumption. simpl. unfold spool_at.
    destruct (nth_lookup_or_length spoolList i "") as [Hnth|Hge]; [|lia].
    rewrite Hnth. reflexivity.
  - rewrite lookup_seq_ge by lia. simpl. symmetry.
    apply lookup_ge_None_2. lia.
Qed.

Lemma spools_of_schedule (spoolList : list string) (sched : list nat) :
  Permutation sched (seq 0 (length spoolList)) ->
  Permutation (spool_at spoolList <$> sched) spoolList.
Proof.
  intros Hp. rewrite Hp, spools_of_seq. reflexivity.
Qed.

(** C5. [Init] replaces the map by a new one and lets one goroutine per
    spool read its directory and register what it found. Whatever the order
    [sched] in which the goroutines run, the run returns; every spool of the
    list was read, once; the registry then holds exactly the joined names
    of the lists found in the spools that could be read, each with a mutex
    allocated during the run and unlocked (nothing of the previous map is
    kept); and the error returned is the first non-nil error of a discovery
    in the order in which the goroutines finished: nil exactly when every
    spool could be read. *)
Theorem Init_installs_what_was_discovered s (sched : list nat)
    (spoolList : list string) :
  top_idle s ->
  Permutation sched (seq 0 (length spoolList)) ->
  let err := first_error (discovery_errors ReadDir spoolList sched) in
  exists s' mp evs,
    Init path_Join ReadDir sched spoolList s = Returns err s'
    /\ lists (lm s') = Some mp
    /\ (forall key,
          is_Some (mp !! key)
          <-> exists spool list,
                spool ∈ spoolList /\ list ∈ discovered ReadDir spool
                /\ key = listDir path_Join spool list)
    /\ (forall key l, mp !! key = Some l ->
                      heap s !! l = None /\ heap s' !! l = Some zeroRWMutex)
    /\ events_of s s' evs
    /\ Permutation (queried evs) spoolList
    /\ (err = None
        <-> forall spool, spool ∈ spoolList -> snd (ReadDir spool) = None).
Proof.
  intros Hidle Hp err.
  assert (Hlt : Forall (fun i => (i < length spoolList)%nat) sched).
  { apply Forall_forall. intros i Hi. rewrite Hp in Hi.
    apply elem_of_seq in Hi. lia. }
  assert (Hlen : length sched = length spoolList).
  { rewrite Hp. apply length_seq. }
  pose (s0 := mkState (mkListManager (mutex (lm s)) (Some ∅))
                      (heap s) (ext s) (trace s)).
  destruct (go_sched_Init spoolList sched [] s0 ∅ Hidle eq_refl Hlt)
    as (s' & Hgo & _ & _ & (evs & Htr & Hq) & mp0 & mp & k & Hm0 & Hm & Hh & Hd & Hf).
  { simpl. lia. }
  simpl in Hm0. injection Hm0 as <-. simpl in Hgo, Htr, Hh.
  pose proof (spools_of_schedule spoolList sched Hp) as Hspools.
  assert (Hmem : forall spool,
             spool ∈ spoolList
             <-> exists i, spool = spool_at spoolList i /\ i ∈ sched).
  { intros spool. rewrite <- list_elem_of_fmap.
    symmetry. exact (elem_of_Permutation_proper spool _ _ Hspools). }
  exists s', mp, evs.
  split; [|split; [exact Hm|split; [|split; [|split; [exact Htr|split]]]]].
  - unfold Init, bind, map_make. fold s0. rewrite Hgo.
    replace (length spoolList) with
      (length (discovery_errors ReadDir spoolList sched))
      by (unfold discovery_errors; rewrite length_fmap; exact Hlen).
    apply recv_errors_first.
  - intros key. rewrite Hd, lookup_empty, list_elem_of_bind. split.
    + intros [[? [=]]|(i & Hkey & Hi)].
      unfold names_at in Hkey. apply list_elem_of_fmap in Hkey as (list & -> & Hin).
      exists (spool_at spoolList i), list. split; [|split; [assumption|reflexivity]].
      apply Hmem. eauto.
    + intros (spool & list & Hspool & Hin & ->). right.
      apply Hmem in Hspool as (i & -> & Hi).
      exists i. split; [|assumption].
      unfold names_at. apply list_elem_of_fmap. eauto.
  - intros key l Hl. apply Hf in Hl as [Hl|Hl].
    { rewrite lookup_empty in Hl. discriminate. }
    simpl in Hl. split; [apply lookup_ge_None_2; lia|].
    rewrite Hh in *. rewrite length_app, length_replicate in Hl.
    rewrite lookup_app_r by lia. apply lookup_replicate_2. lia.
  - rewrite Hq. exact Hspools.
  - unfold err. rewrite first_error_all_nil. unfold discovery_errors.
    rewrite Forall_fmap, Forall_forall. split.
    + intros H spool Hspool.
      apply Hmem in Hspool as (i & -> & Hi). exact (H i Hi).
    + intros H i Hi. apply H. apply Hmem. eauto.
Qed.
Lemma Init_returns s (sched : list nat) (spoolList : list string) :
  top_idle s ->
  Permutation sched (seq 0 (length spoolList)) ->
  exists err s' mp,
    Init path_Join ReadDir sched spoolList s = Returns err s'
    /\ top_idle s' /\ lists (lm s') = Some mp.
Proof.
  intros Hidle Hp.
  assert (Hlt : Forall (fun i => (i < length spoolList)%nat) sched).
  { apply Forall_forall. intros i Hi. rewrite Hp in Hi.
    apply elem_of_seq in Hi. lia. }
  assert (Hlen : length sched = length spoolList).
  { rewrite Hp. apply length_seq. }
  pose (s0 := mkState (mkListManager (mutex (lm s)) (Some ∅))
                      (heap s) (ext s) (trace s)).
  destruct (go_sched_Init spoolList sched [] s0 ∅ Hidle eq_refl Hlt)
    as (s' & Hgo & Hext); [simpl; lia|].
  destruct (extends_lists _ _ _ _ Hext) as (Hidle' & mp & Hls).
  eexists _, s', mp. split; [|split; assumption].
  unfold Init, bind, map_make. fold s0. rewrite Hgo.
  replace (length spoolList) with
    (length (discovery_errors ReadDir spoolList sched))
    by (unfold discovery_errors; rewrite length_fmap; exact Hlen).
  apply recv_errors_first.
Qed.


(** C10. On the [ListManager] that [NewListManager] returns, [AddList]
    panics for every name, with Go's message for a write to a nil map, and
    registers nothing. Once the map is there and nobody holds the top-level
    lock, [AddList] returns; and the map is there after [Init], whatever
    the spools and the order in which its goroutines ran. *)
Theorem AddList_before_Init :
  (forall name (hp : list RWMutex) (w : W) (tr : list event),
      exists s',
        AddList name (mkState NewListManager hp w tr)
        = Panics "assignment to entry in nil map" s'
        /\ lm s' = NewListManager)
  /\ (forall s name,
      top_idle s ->
      lists (lm s) <> None ->
      exists b s', AddList name s = Returns b s')
  /\ (forall s (sched : list nat) (spoolList : list string) name,
      top_idle s ->
      Permutation sched (seq 0 (length spoolList)) ->
      exists err s1 b s2,
        Init path_Join ReadDir sched spoolList s = Returns err s1
        /\ AddList name s1 = Returns b s2).
Proof.
  assert (Hadd : forall s name,
             top_idle s -> lists (lm s) <> None ->
             exists b s', AddList name s = Returns b s').
  { intros s name Hidle Hls.
    destruct (lists (lm s)) as [mp|] eqn:Hmp; [|congruence].
    destruct (mp !! name) as [l|] eqn:Hl.
    - eexists _, _. eapply AddList_present; [assumption|].
      unfold registered. rewrite Hmp. eassumption.
    - eexists _, _. eapply AddList_absent; eassumption. }
  split; [|split; [exact Hadd|]].
  - intros name hp w tr. eexists. split.
    + apply AddList_nil_map; reflexivity.
    + reflexivity.
  - intros s sched spoolList name Hidle Hp.
    destruct (Init_returns s sched spoolList Hidle Hp)
      as (err & s1 & mp & Hrun & Hidle1 & Hls1).
    destruct (Hadd s1 name Hidle1) as (b & s2 & Hb); [congruence|].
    exists err, s1, b, s2. split; assumption.
Qed.
End InitFacts.

(** ** The theorems at work on the sample installation *)

Lemma unwatched_list_is_turned_away_witness :
  top_readable (Sample.watching tt)
  /\ registered (Sample.watching tt) Sample.beta = None
  /\ @MLMMJWrapper.Count unit Sample.flaky Sample.join
       "/var/spool/mlmmj" "beta" Subscriber (Sample.watching tt)
     = Returns (-1, Some UnwatchedList) (turned_away (Sample.watching tt)).
Proof.
  assert (Htop : top_readable (Sample.watching tt)) by reflexivity.
  assert (Hreg : registered (Sample.watching tt)
                   (listDir Sample.join "/var/spool/mlmmj" "beta") = None)
    by (vm_compute; reflexivity).
  split; [exact Htop|]. split; [exact Hreg|].
  destruct (@unwatched_list_is_turned_away unit Sample.flaky Sample.join
              (Sample.watching tt) "/var/spool/mlmmj" "beta" Htop Hreg)
    as (_ & _ & _ & _ & _ & Hcount & _).
  exact (Hcount Subscriber).
Defined.

Lemma MakeML_registers_on_success_witness :
  exists s',
    @MLMMJWrapper.MakeML unit Sample.flaky Sample.join
      "/var/spool/mlmmj" "beta" "example.org" "owner@example.org" "en"
      (Sample.watching tt)
    = Returns ("created", None) s'
    /\ is_Some (registered s' Sample.beta).
Proof.
  destruct (@MakeML_registers_on_success unit Sample.flaky Sample.join
              (Sample.watching tt)
              "/var/spool/mlmmj" "beta" "example.org" "owner@example.org" "en")
    as [_ Hok].
  destruct (Hok {[ Sample.alpha := 0%nat ]} eq_refl eq_refl eq_refl)
    as (s' & Hrun & _ & _ & _ & Hreg & _).
  exists s'. split; [exact Hrun|exact Hreg].
Defined.

Lemma fan_out_first_completed_error_witness :
  exists s',
    @MLMMJWrapper.ListAllMembers unit Sample.flaky Sample.join [2; 0; 1]%nat
      "/var/spool/mlmmj" "alpha" (Sample.watching tt)
    = Returns ([], [], ["carol@example.org"],
               Some (NewError "subscribers: timeout")) s'.
Proof.
  destruct (@fan_out_first_completed_error unit Sample.flaky Sample.join
              (Sample.watching tt) "/var/spool/mlmmj" "alpha" 0%nat zeroRWMutex)
    as (Hmembers & _).
  - reflexivity.
  - vm_compute. reflexivity.
  - reflexivity.
  - reflexivity.
  - destruct (Hmembers [2; 0; 1]%nat) as [Hrun _].
    + apply (Permutation_cons_append [0; 1]%nat 2%nat).
    + eexists. exact Hrun.
Defined.

Lemma release_exactly_once_witness :
  releases_once
    (ListManagerImpl.WriteList Sample.alpha)
    (@MLMMJWrapper.Sub unit Sample.flaky Sample.join
       (NewSubRequest "a@example.com" "alpha"))
    (Sample.watching tt).
Proof.
  destruct (@release_exactly_once unit Sample.flaky Sample.join
              (Sample.watching tt) "/var/spool/mlmmj" "alpha")
    as (_ & Hwrite & _).
  destruct Hwrite as [Hsub _].
  - split; [reflexivity|]. intros l Hl.
    vm_compute in Hl. injection Hl as <-.
    exists zeroRWMutex, (mkRWMutex true 0). split; reflexivity.
  - apply Hsub; reflexivity.
Defined.

Lemma top_lock_spans_the_acquisition_witness :
  ListManagerImpl.WriteList Sample.alpha (Sample.writing tt)
  = Blocks (top_rlocked (Sample.writing tt)).
Proof.
  destruct (@top_lock_spans_the_acquisition unit (Sample.writing tt)
              Sample.alpha 0%nat (mkRWMutex true 0))
    as (_ & _ & _ & Hwait & _).
  - reflexivity.
  - vm_compute. reflexivity.
  - reflexivity.
  - apply Hwait. reflexivity.
Defined.

Lemma Unsub_owner_or_moderator_witness :
  exists s',
    @MLMMJWrapper.Unsub (docker unit) Sample.docker_handler Sample.join
      Sample.unsub_owner (Sample.watching (mkDocker tt []))
    = Returns ("", Some (NewError
                           "Invalid subscription type Owner for unsubscription"))
              s'
    /\ ext s' = mkDocker tt [].
Proof.
  destruct (Unsub_owner_or_moderator Sample.join Sample.transport
              Sample.scan Sample.trim Sample.atoi
              (Sample.watching (mkDocker tt [])) Sample.unsub_owner)
    as (_ & _ & Hwatched & _).
  - left. reflexivity.
  - eexists. split.
    + apply (Hwatched 0%nat).
      * reflexivity.
      * vm_compute. reflexivity.
      * reflexivity.
    + reflexivity.
Defined.

Lemma Init_installs_what_was_discovered_witness :
  exists s' mp,
    @Init unit Sample.join Sample.readdir [2; 0; 1]%nat
      ["/var/spool/mlmmj"; "/nowhere"; "/srv/lists"] (Sample.watching tt)
    = Returns (Some (NewError "open /nowhere: no such file or directory")) s'
    /\ lists (lm s') = Some mp
    /\ is_Some (mp !! "/srv/lists/gamma")
    /\ is_Some (mp !! Sample.alpha).
Proof.
  destruct (@Init_installs_what_was_discovered unit Sample.join Sample.readdir
              (Sample.watching tt) [2; 0; 1]%nat
              ["/var/spool/mlmmj"; "/nowhere"; "/srv/lists"])
    as (s' & mp & evs & Hrun & Hls & Hdom & _).
  - reflexivity.
  - apply (Permutation_cons_append [0; 1]%nat 2%nat).
  - exists s', mp. split; [exact Hrun|]. split; [exact Hls|]. split.
    + apply Hdom. exists "/srv/lists", "gamma".
      split; [do 2 apply list_elem_of_further; apply list_elem_of_here|].
      split; [|reflexivity].
      vm_compute. apply list_elem_of_here.
    + apply Hdom. exists "/var/spool/mlmmj", "alpha".
      split; [apply list_elem_of_here|]. split; [|reflexivity].
      vm_compute. apply list_elem_of_here.
Defined.

Lemma AddList_before_Init_witness :
  exists b s',
    ListManagerImpl.AddList Sample.beta (Sample.watching tt) = Returns b s'.
Proof.
  destruct (@AddList_before_Init unit Sample.join Sample.readdir)
    as (_ & Hadd & _).
  apply Hadd.
  - reflexivity.
  - discriminate.
Defined.

(** ** Where the code departs from the specification *)

(** C2 fails as stated: for a request to unsubscribe an owner from a watched
    list the wrapper acquires the write guard (one acquisition, not none)
    and calls the handler, which is where the request is turned down; for
    an unwatched list the answer is [UnwatchedList], not the error about the
    mode. *)
Lemma Unsub_owner_acquires_the_guard :
  let run := @MLMMJWrapper.Unsub (docker unit) Sample.docker_handler Sample.join in
  let refused :=
    NewError "Invalid subscription type Owner for unsubscription" in
  (exists s',
      run Sample.unsub_owner (Sample.watching (mkDocker tt []))
      = Returns ("", Some refused) s'
      /\ trace s' = [EvSync Top OpRLock; EvSync (Res 0%nat) OpLock;
                     EvSync Top OpRUnlock;
                     EvCall (CallUnsub Sample.unsub_owner) (RetText "")
                            (Some refused);
                     EvRelease; EvSync (Res 0%nat) OpUnlock]
      /\ count_events is_acquire (trace s') = 1%nat
      /\ count_events is_call (trace s') = 1%nat)
  /\ (exists s',
      run (mkUnsubRequest "a@example.com" "beta" "/var/spool/mlmmj"
                          true false false false Owner)
          (Sample.watching (mkDocker tt []))
      = Returns ("", Some UnwatchedList) s').
Proof.
  split.
  - eexists. split; [vm_compute; reflexivity|].
    repeat split; reflexivity.
  - eexists. vm_compute. reflexivity.
Qed.

(** C3 fails as stated: with the subscriber and the digest queries both
    failing, the error returned is the digest's when the digest goroutine
    finishes first, and the subscribers' when that one does; the order of
    the categories would give the subscribers' error in both cases. *)
Lemma fan_out_error_follows_completion_order :
  let run := @MLMMJWrapper.ListAllMembers unit Sample.flaky Sample.join in
  let in_category_order :=
    first_error
      ((fun mode =>
          snd (fst (@handler_List unit Sample.flaky
                      "/var/spool/mlmmj" "alpha" mode tt)))
         <$> member_modes) in
  Permutation [1; 0; 2]%nat [0; 1; 2]%nat
  /\ in_category_order = Some (NewError "subscribers: timeout")
  /\ (exists s',
        run [1; 0; 2]%nat "/var/spool/mlmmj" "alpha" (Sample.watching tt)
        = Returns ([], [], ["carol@example.org"],
                   Some (NewError "digest: timeout")) s')
  /\ (exists s',
        run [0; 1; 2]%nat "/var/spool/mlmmj" "alpha" (Sample.watching tt)
        = Returns ([], [], ["carol@example.org"],
                   Some (NewError "subscribers: timeout")) s').
Proof.
  split; [apply perm_swap|]. split; [reflexivity|].
  split; eexists; vm_compute; reflexivity.
Qed.

(** C9 fails as stated: [WriteList] gives the top-level lock back after it
    has taken the mutex of the list, not before; and while it waits for a
    mutex that a writer holds, it holds the top-level lock for reading, so
    that [AddList] and [RemoveList] of another name, which would go through
    otherwise, have to wait. *)
Lemma WriteList_waits_with_top_lock_held :
  (exists release s',
      ListManagerImpl.WriteList Sample.alpha (Sample.watching tt)
      = Returns (true, release) s'
      /\ trace s' = [EvSync Top OpRLock; EvSync (Res 0%nat) OpLock;
                     EvSync Top OpRUnlock])
  /\ (exists s',
      ListManagerImpl.WriteList Sample.alpha (Sample.writing tt) = Blocks s'
      /\ mutex (lm s') = mkRWMutex false 1
      /\ ListManagerImpl.AddList Sample.beta s' = Blocks s'
      /\ ListManagerImpl.RemoveList Sample.beta s' = Blocks s')
  /\ (exists s', ListManagerImpl.AddList Sample.beta (Sample.writing tt)
                 = Returns true s').
Proof.
  split; [|split].
  - eexists _, _. split; [vm_compute; reflexivity|reflexivity].
  - eexists. split; [vm_compute; reflexivity|]. repeat split; reflexivity.
  - eexists. vm_compute. reflexivity.
Qed.

(** * Further properties of the registry *)

Section RegistryMore.
Context {W : Type}.
Import ListManagerImpl.
Implicit Types (s : state W) (name other : string) (l : loc)
  (mp : gmap string loc).

(** X1. [RemoveList] returns [true] exactly when the name was registered. After
    it the name is not registered; every other name, every mutex and the
    handler's world are as before, and the top-level lock is free again. *)
Theorem RemoveList_forgets_one_name s name :
  top_idle s ->
  exists s',
    RemoveList name s = Returns (bool_decide (is_Some (registered s name))) s'
    /\ registered s' name = None
    /\ (forall other, other <> name -> registered s' other = registered s other)
    /\ heap s' = heap s /\ ext s' = ext s /\ top_idle s'.
Proof.
  intros Hidle. destruct (registered s name) as [l|] eqn:Hreg.
  - unfold registered in Hreg.
    destruct (lists (lm s)) as [mp|] eqn:Hls; [|discriminate].
    eexists. split; [eapply RemoveList_present; eassumption|].
    unfold registered. simpl. rewrite Hls.
    split; [apply lookup_delete_eq|]. split; [|repeat split].
    intros other Hne. apply lookup_delete_ne. congruence.
  - eexists. split; [apply RemoveList_absent; assumption|].
    unfold registered in *. simpl.
    split; [assumption|]. split; [reflexivity|]. repeat split. exact Hidle.
Qed.

(** X2. [AddList] on an initialised registry returns [true] exactly when the name
    was not registered. After it the name is registered; every other name
    keeps its mutex, every mutex allocated before keeps its state, and the
    top-level lock is free again. *)
Theorem AddList_disturbs_nothing_else s name :
  top_idle s ->
  lists (lm s) <> None ->
  exists s',
    AddList name s = Returns (bool_decide (registered s name = None)) s'
    /\ is_Some (registered s' name)
    /\ (forall other, other <> name -> registered s' other = registered s other)
    /\ (forall l mu, heap s !! l = Some mu -> heap s' !! l = Some mu)
    /\ ext s' = ext s /\ top_idle s'.
Proof.
  intros Hidle Hls.
  destruct (lists (lm s)) as [mp|] eqn:Hmp; [clear Hls|congruence].
  assert (Hname : registered s name = mp !! name)
    by (unfold registered; rewrite Hmp; reflexivity).
  destruct (registered s name) as [l|] eqn:Hreg; symmetry in Hname.
  - eexists. split.
    { eapply AddList_present; [assumption|].
      unfold registered. rewrite Hmp. exact Hname. }
    unfold registered. simpl. rewrite Hmp.
    split; [eexists; eassumption|]. split; [reflexivity|].
    split; [tauto|]. split; [reflexivity|exact Hidle].
  - eexists. split; [eapply AddList_absent; eassumption|].
    unfold registered. simpl. rewrite Hmp.
    split; [rewrite lookup_insert_eq; eexists; reflexivity|].
    split; [intros other Hne; apply lookup_insert_ne; congruence|].
    split; [|split; reflexivity].
    intros l mu Hl. rewrite lookup_app_l; [assumption|].
    eapply lookup_lt_Some; eassumption.
Qed.

Lemma release_restores (un : lockop) s l mu mu' :
  heap s !! l = Some mu' ->
  rw_step un mu' = Done mu ->
  sync (Res l) un s
  = Returns tt (mkState (lm s) (<[l := mu]> (heap s)) (ext s)
                        (trace s ++ [EvSync (Res l) un])).
Proof.
  intros Hl Hstep. unfold sync. simpl. rewrite Hl, Hstep. reflexivity.
Qed.

(** X3. A guard outlives the registration of its list: when the name is removed
    while the guard is held, the release function still unlocks the mutex
    (every mutex is then as it was before the guard was taken), and the name
    stays removed. *)
Theorem guard_outlives_RemoveList s name l :
  top_idle s ->
  registered s name = Some l ->
  heap s !! l = Some zeroRWMutex ->
  (exists release s1 s2 s3,
      WriteList name s = Returns (true, release) s1
      /\ RemoveList name s1 = Returns true s2
      /\ release s2 = Returns tt s3
      /\ heap s3 = heap s /\ registered s3 name = None /\ top_idle s3)
  /\ (exists release s1 s2 s3,
      ReadList name s = Returns (true, release) s1
      /\ RemoveList name s1 = Returns true s2
      /\ release s2 = Returns tt s3
      /\ heap s3 = heap s /\ registered s3 name = None /\ top_idle s3).
Proof.
  intros Hidle Hreg Hl.
  assert (Htop : top_readable s) by (unfold top_readable; rewrite Hidle; reflexivity).
  assert (Hlt : (l < length (heap s))%nat) by (eapply lookup_lt_Some; eassumption).
  unfold registered in Hreg.
  destruct (lists (lm s)) as [mp|] eqn:Hls; [|discriminate].
  assert (Hreg' : registered s name = Some l)
    by (unfold registered; rewrite Hls; exact Hreg).
  rewrite ReadList_acquire, WriteList_acquire.
  split.
  - eexists _, _, _, _.
    split; [exact (acquire_registered OpLock OpUnlock s name l zeroRWMutex
                     (mkRWMutex true 0) Htop Hreg' Hl eq_refl)|].
    split; [eapply RemoveList_present; [exact Hidle|exact Hls|exact Hreg]|].
    split.
    { eapply (release_restores OpUnlock _ l zeroRWMutex); simpl.
      - apply list_lookup_insert_eq. exact Hlt.
      - reflexivity. }
    simpl. rewrite list_insert_insert_eq, list_insert_id by assumption.
    split; [reflexivity|]. split; [|reflexivity].
    unfold registered. simpl. apply lookup_delete_eq.
  - eexists _, _, _, _.
    split; [exact (acquire_registered OpRLock OpRUnlock s name l zeroRWMutex
                     (mkRWMutex false 1) Htop Hreg' Hl eq_refl)|].
    split; [eapply RemoveList_present; [exact Hidle|exact Hls|exact Hreg]|].
    split.
    { eapply (release_restores OpRUnlock _ l zeroRWMutex); simpl.
      - apply list_lookup_insert_eq. exact Hlt.
      - reflexivity. }
    simpl. rewrite list_insert_insert_eq, list_insert_id by assumption.
    split; [reflexivity|]. split; [|reflexivity].
    unfold registered. simpl. apply lookup_delete_eq.
Qed.

(** X4. While a write guard is held, a second [WriteList] or [ReadList] for the
    same name waits. Once the guard is released the list can be locked
    again; and calling the release function a second time is a fatal error
    of the runtime. *)
Theorem write_guard_excludes s name l :
  top_readable s ->
  registered s name = Some l ->
  heap s !! l = Some zeroRWMutex ->
  exists release s1 s2,
    WriteList name s = Returns (true, release) s1
    /\ WriteList name s1 = Blocks (top_rlocked s1)
    /\ ReadList name s1 = Blocks (top_rlocked s1)
    /\ release s1 = Returns tt s2
    /\ heap s2 = heap s /\ lm s2 = lm s
    /\ (exists release' s3, WriteList name s2 = Returns (true, release') s3)
    /\ release s2 = Fatal "sync: Unlock of unlocked RWMutex" s2.
Proof.
  intros Htop Hreg Hl.
  assert (Hlt : (l < length (heap s))%nat) by (eapply lookup_lt_Some; eassumption).
  rewrite ReadList_acquire, !WriteList_acquire.
  eexists _, _, _.
  split; [exact (acquire_registered OpLock OpUnlock s name l zeroRWMutex
                   (mkRWMutex true 0) Htop Hreg Hl eq_refl)|].
  split.
  { eapply (acquire_waits OpLock OpUnlock _ name l (mkRWMutex true 0));
      [exact Htop|exact Hreg| |reflexivity].
    simpl. apply list_lookup_insert_eq. exact Hlt. }
  split.
  { eapply (acquire_waits OpRLock OpRUnlock _ name l (mkRWMutex true 0));
      [exact Htop|exact Hreg| |reflexivity].
    simpl. apply list_lookup_insert_eq. exact Hlt. }
  split.
  { eapply (release_restores OpUnlock _ l zeroRWMutex); simpl.
    - apply list_lookup_insert_eq. exact Hlt.
    - reflexivity. }
  simpl. rewrite list_insert_insert_eq, list_insert_id by assumption.
  split; [reflexivity|]. split; [reflexivity|]. split.
  - eexists _, _.
    eapply (acquire_registered OpLock OpUnlock _ name l zeroRWMutex);
      [exact Htop|exact Hreg|exact Hl|reflexivity].
  - unfold sync. simpl. rewrite Hl. reflexivity.
Qed.

(** X5. Read guards on one list are shared: a second [ReadList] goes through
    while the first guard is held. A [WriteList] waits as long as a reader
    is left, and goes through once both have released. *)
Theorem read_guards_share s name l :
  top_readable s ->
  registered s name = Some l ->
  heap s !! l = Some zeroRWMutex ->
  exists release1 release2 s1 s2 s3 s4,
    ReadList name s = Returns (true, release1) s1
    /\ ReadList name s1 = Returns (true, release2) s2
    /\ heap s2 !! l = Some (mkRWMutex false 2)
    /\ WriteList name s2 = Blocks (top_rlocked s2)
    /\ release1 s2 = Returns tt s3
    /\ WriteList name s3 = Blocks (top_rlocked s3)
    /\ release2 s3 = Returns tt s4
    /\ heap s4 = heap s
    /\ exists release s5, WriteList name s4 = Returns (true, release) s5.
Proof.
  intros Htop Hreg Hl.
  assert (Hlt : (l < length (heap s))%nat) by (eapply lookup_lt_Some; eassumption).
  rewrite !ReadList_acquire, !WriteList_acquire.
  eexists _, _, _, _, _, _.
  split; [exact (acquire_registered OpRLock OpRUnlock s name l zeroRWMutex
                   (mkRWMutex false 1) Htop Hreg Hl eq_refl)|].
  split.
  { eapply (acquire_registered OpRLock OpRUnlock _ name l (mkRWMutex false 1)
              (mkRWMutex false 2)); [exact Htop|exact Hreg| |reflexivity].
    simpl. apply list_lookup_insert_eq. exact Hlt. }
  simpl. rewrite list_insert_insert_eq.
  split; [apply list_lookup_insert_eq; exact Hlt|].
  split.
  { eapply (acquire_waits OpLock OpUnlock _ name l (mkRWMutex false 2));
      [exact Htop|exact Hreg| |reflexivity].
    simpl. apply list_lookup_insert_eq. exact Hlt. }
  split.
  { eapply (release_restores OpRUnlock _ l (mkRWMutex false 1)); simpl.
    - apply list_lookup_insert_eq. exact Hlt.
    - reflexivity. }
  simpl. rewrite list_insert_insert_eq.
  split.
  { eapply (acquire_waits OpLock OpUnlock _ name l (mkRWMutex false 1));
      [exact Htop|exact Hreg| |reflexivity].
    simpl. apply list_lookup_insert_eq. exact Hlt. }
  split.
  { eapply (release_restores OpRUnlock _ l zeroRWMutex); simpl.
    - apply list_lookup_insert_eq. exact Hlt.
    - reflexivity. }
  simpl. rewrite list_insert_insert_eq, list_insert_id by assumption.
  split; [reflexivity|].
  eexists _, _.
  eapply (acquire_registered OpLock OpUnlock _ name l zeroRWMutex);
    [exact Htop|exact Hreg|exact Hl|reflexivity].
Qed.

(** X6. In a registry at rest, guards on different lists do not wait for each
    other. Nobody holds the top-level lock (so that no writer can be queued
    on it either) and the mutexes of the two lists are free; then, with a
    write guard taken on one list, a guard for the other list is granted at
    once, and when both are released, in the order taken or in the other,
    every mutex is as before. *)
Theorem guards_on_different_lists s name other l l' :
  top_idle s ->
  well_formed s ->
  name <> other ->
  registered s name = Some l ->
  registered s other = Some l' ->
  heap s !! l = Some zeroRWMutex ->
  heap s !! l' = Some zeroRWMutex ->
  exists release s1,
    WriteList name s = Returns (true, release) s1
    /\ (exists release' s2 s3 s4,
          WriteList other s1 = Returns (true, release') s2
          /\ release s2 = Returns tt s3 /\ release' s3 = Returns tt s4
          /\ heap s4 = heap s)
    /\ (exists release' s2 s3 s4,
          ReadList other s1 = Returns (true, release') s2
          /\ release' s2 = Returns tt s3 /\ release s3 = Returns tt s4
          /\ heap s4 = heap s).
Proof.
  intros Hidle [_ Hinj] Hne Hreg Hreg' Hl Hl'.
  assert (Htop : top_readable s)
    by (unfold top_readable; rewrite Hidle; reflexivity).
  assert (Hll : l <> l').
  { intros <-. apply Hne. exact (Hinj _ _ _ Hreg Hreg'). }
  assert (Hlt : (l < length (heap s))%nat) by (eapply lookup_lt_Some; eassumption).
  assert (Hlt' : (l' < length (heap s))%nat) by (eapply lookup_lt_Some; eassumption).
  rewrite ReadList_acquire, !WriteList_acquire.
  eexists _, _.
  split; [exact (acquire_registered OpLock OpUnlock s name l zeroRWMutex
                   (mkRWMutex true 0) Htop Hreg Hl eq_refl)|].
  split.
  - eexists _, _, _, _. split.
    { eapply (acquire_registered OpLock OpUnlock _ other l' zeroRWMutex);
        [exact Htop|exact Hreg'| |reflexivity].
      simpl. rewrite list_lookup_insert_ne by assumption. exact Hl'. }
    split.
    { eapply (release_restores OpUnlock _ l zeroRWMutex); simpl.
      - rewrite list_lookup_insert_ne by congruence.
        apply list_lookup_insert_eq. exact Hlt.
      - reflexivity. }
    split.
    { eapply (release_restores OpUnlock _ l' zeroRWMutex); simpl.
      - rewrite list_lookup_insert_ne by assumption.
        apply list_lookup_insert_eq. rewrite length_insert. exact Hlt'.
      - reflexivity. }
    simpl. apply list_eq. intros i.
    destruct (decide (i = l')) as [->|Hi'];
      [rewrite list_lookup_insert_eq by (rewrite !length_insert; exact Hlt');
       symmetry; exact Hl'|].
    rewrite list_lookup_insert_ne by congruence.
    destruct (decide (i = l)) as [->|Hi];
      [rewrite list_lookup_insert_eq by (rewrite !length_insert; exact Hlt);
       symmetry; exact Hl|].
    rewrite !list_lookup_insert_ne by congruence. reflexivity.
  - eexists _, _, _, _. split.
    { eapply (acquire_registered OpRLock OpRUnlock _ other l' zeroRWMutex);
        [exact Htop|exact Hreg'| |reflexivity].
      simpl. rewrite list_lookup_insert_ne by assumption. exact Hl'. }
    split.
    { eapply (release_restores OpRUnlock _ l' zeroRWMutex); simpl.
      - apply list_lookup_insert_eq. rewrite length_insert. exact Hlt'.
      - reflexivity. }
    split.
    { eapply (release_restores OpUnlock _ l zeroRWMutex); simpl.
      - rewrite !list_lookup_insert_ne by congruence.
        apply list_lookup_insert_eq. exact Hlt.
      - reflexivity. }
    simpl. apply list_eq. intros i.
    destruct (decide (i = l)) as [->|Hi];
      [rewrite list_lookup_insert_eq by (rewrite !length_insert; exact Hlt);
       symmetry; exact Hl|].
    rewrite list_lookup_insert_ne by congruence.
    destruct (decide (i = l')) as [->|Hi'];
      [rewrite list_lookup_insert_eq by (rewrite !length_insert; exact Hlt');
       symmetry; exact Hl'|].
    rewrite !list_lookup_insert_ne by congruence. reflexivity.
Qed.
End RegistryMore.

(** * The shape of the registry is kept *)

Section Invariant.
Context {W : Type}.
Variable path_Join : string -> string -> string.
Variable ReadDir : string -> list FileInfo * option error.
Import ListManagerImpl.
Implicit Types (s : state W) (name key spool : string) (l : loc).

Lemma AddList_settled s name :
  settled s -> exists b s', AddList name s = Returns b s' /\ settled s'.
Proof.
  intros (Hidle & Hls & Halloc & Hinj).
  destruct (lists (lm s)) as [mp|] eqn:Hmp; [clear Hls|congruence].
  assert (Hr : forall n, registered s n = mp !! n)
    by (intros n; unfold registered; rewrite Hmp; reflexivity).
  destruct (mp !! name) as [l|] eqn:Hname.
  - eexists _, _. split.
    { eapply AddList_present; [assumption|]. rewrite Hr. exact Hname. }
    split; [exact Hidle|]. split; [simpl; congruence|].
    split; [exact Halloc|exact Hinj].
  - eexists _, _. split; [eapply AddList_absent; eassumption|].
    split; [reflexivity|]. split; [discriminate|].
    unfold well_formed, registered. simpl. split.
    + intros n l. rewrite length_app. simpl.
      destruct (decide (name = n)) as [<-|Hne].
      * rewrite lookup_insert_eq. intros [= <-]. lia.
      * rewrite lookup_insert_ne by assumption. rewrite <- Hr.
        intros Hn. apply Halloc in Hn. lia.
    + intros n1 n2 l.
      destruct (decide (name = n1)) as [<-|Hne1];
        destruct (decide (name = n2)) as [<-|Hne2];
        rewrite ?lookup_insert_eq, ?lookup_insert_ne by assumption;
        rewrite <- ?Hr.
      * reflexivity.
      * intros [= <-] Hn. apply Halloc in Hn. lia.
      * intros Hn [= <-]. apply Halloc in Hn. lia.
      * apply Hinj.
Qed.

Lemma RemoveList_settled s name :
  settled s -> exists b s', RemoveList name s = Returns b s' /\ settled s'.
Proof.
  intros (Hidle & Hls & Halloc & Hinj).
  destruct (lists (lm s)) as [mp|] eqn:Hmp; [clear Hls|congruence].
  assert (Hr : forall n, registered s n = mp !! n)
    by (intros n; unfold registered; rewrite Hmp; reflexivity).
  destruct (mp !! name) as [l|] eqn:Hname.
  - eexists _, _. split; [eapply RemoveList_present; eassumption|].
    split; [reflexivity|]. split; [discriminate|].
    unfold well_formed, registered. simpl. split.
    + intros n l'. destruct (decide (name = n)) as [<-|Hne].
      * rewrite lookup_delete_eq. discriminate.
      * rewrite lookup_delete_ne by assumption. rewrite <- Hr. apply Halloc.
    + intros n1 n2 l'.
      destruct (decide (name = n1)) as [<-|Hne1];
        [rewrite lookup_delete_eq; discriminate|].
      destruct (decide (name = n2)) as [<-|Hne2];
        [rewrite (lookup_delete_eq mp name); discriminate|].
      rewrite !lookup_delete_ne by assumption. rewrite <- !Hr. apply Hinj.
  - eexists _, _. split.
    { eapply RemoveList_absent; [assumption|]. rewrite Hr. exact Hname. }
    split; [exact Hidle|]. split; [simpl; congruence|].
    split; [exact Halloc|exact Hinj].
Qed.

Lemma Init_add_settled spool (found : list string) s :
  settled s ->
  exists s', Init_add path_Join spool found s = Returns tt s' /\ settled s'.
Proof.
  revert s. induction found as [|list found IH]; intros s Hs.
  - exists s. split; [reflexivity|assumption].
  - destruct (AddList_settled s (listDir path_Join spool list) Hs)
      as (b & s1 & Hadd & Hs1).
    destruct (IH s1 Hs1) as (s2 & Hrest & Hs2).
    exists s2. split; [|assumption].
    simpl. unfold bind. rewrite Hadd. exact Hrest.
Qed.

Lemma Init_go_settled (cap : nat) spool (ch : list (option error)) s :
  settled s ->
  (length ch < cap)%nat ->
  exists ch' s',
    Init_go path_Join ReadDir cap spool ch s = Returns ch' s'
    /\ length ch' = S (length ch) /\ settled s'.
Proof.
  intros Hs Hcap. unfold Init_go, bind. rewrite GetLists_returns.
  destruct (Init_add_settled spool (discovered ReadDir spool)
              (log (EvReadDir spool) s)) as (s1 & Hadd & Hs1).
  { exact Hs. }
  rewrite Hadd. unfold chan_send. rewrite decide_True by assumption.
  eexists _, s1. split; [reflexivity|]. split; [|assumption].
  rewrite length_app. simpl. lia.
Qed.

Lemma go_sched_settled (spoolList : list string) (sched : list nat)
    (ch : list (option error)) s :
  settled s ->
  (length ch + length sched <= length spoolList)%nat ->
  exists ch' s',
    go_sched sched (Init_go path_Join ReadDir (length spoolList) <$> spoolList) ch s
    = Returns ch' s'
    /\ settled s'.
Proof.
  revert ch s. induction sched as [|i sched IH]; intros ch s Hs Hcap.
  - exists ch, s. split; [reflexivity|assumption].
  - simpl in *. rewrite list_lookup_fmap.
    destruct (spoolList !! i) as [spool|]; simpl.
    + destruct (Init_go_settled (length spoolList) spool ch s Hs ltac:(lia))
        as (ch1 & s1 & Hgo & Hlen & Hs1).
      destruct (IH ch1 s1 Hs1 ltac:(lia)) as (ch2 & s2 & Hrest & Hs2).
      exists ch2, s2. split; [|assumption].
      unfold bind. rewrite Hgo. exact Hrest.
    + apply IH; [assumption|lia].
Qed.

(** X7. The registry keeps its shape: after [Init], whatever the spools and the
    order of its goroutines, every registered name has an allocated mutex of
    its own, and [AddList] and [RemoveList] keep it so. *)
Theorem registry_stays_well_formed :
  (forall s (sched : list nat) (spoolList : list string),
      top_idle s ->
      Permutation sched (seq 0 (length spoolList)) ->
      exists err s',
        Init path_Join ReadDir sched spoolList s = Returns err s'
        /\ well_formed s')
  /\ (forall s name,
        top_idle s -> lists (lm s) <> None -> well_formed s ->
        exists b s', AddList name s = Returns b s' /\ well_formed s')
  /\ (forall s name,
        top_idle s -> lists (lm s) <> None -> well_formed s ->
        exists b s', RemoveList name s = Returns b s' /\ well_formed s').
Proof.
  split; [|split].
  - intros s sched spoolList Hidle Hp.
    destruct (Init_returns path_Join ReadDir s sched spoolList Hidle Hp)
      as (err & s' & mp & Hrun & _ & _).
    exists err, s'. split; [exact Hrun|].
    pose (s0 := mkState (mkListManager (mutex (lm s)) (Some ∅))
                        (heap s) (ext s) (trace s)).
    assert (Hs0 : settled s0).
    { split; [exact Hidle|]. split; [discriminate|].
      unfold well_formed, registered. simpl.
      split; intros ? ?; [|intros ?]; rewrite lookup_empty; discriminate. }
    destruct (go_sched_settled spoolList sched [] s0 Hs0)
      as (ch & s1 & Hgo & _ & _ & Hwf).
    { simpl. rewrite Hp, length_seq. lia. }
    unfold Init, bind, map_make in Hrun. fold s0 in Hrun. rewrite Hgo in Hrun.
    clear Hgo.
    assert (Hsame : forall n (buf : list (option error)) e (t : state W) r t',
               recv_errors n buf e t = Returns r t' -> t' = t).
    { induction n as [|n IHn]; intros buf e t r t'; simpl.
      - intros [= _ <-]. reflexivity.
      - unfold bind, chan_recv. destruct buf as [|next buf]; [discriminate|].
        simpl. apply IHn. }
    apply Hsame in Hrun. subst s'. exact Hwf.
  - intros s name Hidle Hls Hwf.
    destruct (AddList_settled s name) as (b & s' & Hrun & _ & _ & Hwf');
      [repeat split; try assumption; apply Hwf|].
    exists b, s'. split; assumption.
  - intros s name Hidle Hls Hwf.
    destruct (RemoveList_settled s name) as (b & s' & Hrun & _ & _ & Hwf');
      [repeat split; try assumption; apply Hwf|].
    exists b, s'. split; assumption.
Qed.
End Invariant.

(** * Further properties of the wrapper *)

Section WrapperMore.
Context {W : Type} {handler : MLMMJHandler W}.
Variable path_Join : string -> string -> string.
Variable ReadDir : string -> list FileInfo * option error.
Import ListManagerImpl.
Implicit Types (s : state W) (key spool name : string) (l : loc).

Lemma guarded_waits {A} op un s key l mu (zero : A) (body : M W A) :
  top_readable s ->
  registered s key = Some l ->
  heap s !! l = Some mu ->
  rw_step op mu = Wait ->
  guarded (acquire op un key) zero body s = Blocks (top_rlocked s).
Proof.
  intros Htop Hreg Hl Hwait. unfold guarded, bind.
  rewrite (acquire_waits op un s key l mu Htop Hreg Hl Hwait). reflexivity.
Qed.

(** X8. A method that has to wait for the mutex of its list has not called the
    handler yet: it is parked right after taking the top-level read lock,
    the handler's world untouched. The methods that change a list wait for
    readers and writers, those that read it for a writer only. *)
Theorem handler_is_not_called_while_waiting s spool name l mu :
  top_readable s ->
  registered s (listDir path_Join spool name) = Some l ->
  heap s !! l = Some mu ->
  (rw_step OpLock mu = Wait ->
   (forall r, sub_Spool r = spool -> sub_Name r = name ->
              MLMMJWrapper.Sub path_Join r s = Blocks (top_rlocked s))
   /\ (forall r, unsub_Spool r = spool -> unsub_Name r = name ->
                 MLMMJWrapper.Unsub path_Join r s = Blocks (top_rlocked s)))
  /\ (rw_step OpRLock mu = Wait ->
      (forall mode,
          MLMMJWrapper.List path_Join spool name mode s = Blocks (top_rlocked s))
      /\ (forall mode,
             MLMMJWrapper.Count path_Join spool name mode s
             = Blocks (top_rlocked s))
      /\ (forall sched,
             MLMMJWrapper.ListAllMembers path_Join sched spool name s
             = Blocks (top_rlocked s))
      /\ (forall sched,
             MLMMJWrapper.ListAllControllers path_Join sched spool name s
             = Blocks (top_rlocked s)))
  /\ ext (top_rlocked s) = ext s
  /\ trace (top_rlocked s) = trace s ++ [EvSync Top OpRLock].
Proof.
  intros Htop Hreg Hl. split; [|split; [|split; reflexivity]].
  - intros Hwait. split; intros r <- <-;
      exact (guarded_waits OpLock OpUnlock s _ l mu _ _ Htop Hreg Hl Hwait).
  - intros Hwait. repeat split; intros x;
      exact (guarded_waits OpRLock OpRUnlock s _ l mu _ _ Htop Hreg Hl Hwait).
Qed.

(** X9. On a watched list whose mutex is free, [Sub], [Unsub], [List] and
    [Count] return what the handler returned, result and error alike; the
    handler was called once, between the taking and the release of the
    guard, and the registry is as before. *)
Theorem watched_list_gets_the_handlers_answer s spool name l mu :
  top_readable s ->
  registered s (listDir path_Join spool name) = Some l ->
  heap s !! l = Some mu ->
  let around op un (c : hcall) (r : hret) (err : option error) (w' : W) :=
    mkState (lm s) (heap s) w'
            (trace s ++ [EvSync Top OpRLock; EvSync (Res l) op;
                         EvSync Top OpRUnlock; EvCall c r err;
                         EvRelease; EvSync (Res l) un]) in
  (mu = zeroRWMutex ->
   (forall r, sub_Spool r = spool -> sub_Name r = name ->
      let res := handler_Sub r (ext s) in
      MLMMJWrapper.Sub path_Join r s
      = Returns (fst res)
          (around OpLock OpUnlock (CallSub r) (RetText (fst (fst res)))
                  (snd (fst res)) (snd res)))
   /\ (forall r, unsub_Spool r = spool -> unsub_Name r = name ->
      let res := handler_Unsub r (ext s) in
      MLMMJWrapper.Unsub path_Join r s
      = Returns (fst res)
          (around OpLock OpUnlock (CallUnsub r) (RetText (fst (fst res)))
                  (snd (fst res)) (snd res))))
  /\ (writer mu = false ->
      (forall mode,
         let res := handler_List spool name mode (ext s) in
         MLMMJWrapper.List path_Join spool name mode s
         = Returns (fst res)
             (around OpRLock OpRUnlock (CallList spool name mode)
                     (RetList (fst (fst res))) (snd (fst res)) (snd res)))
      /\ (forall mode,
         let res := handler_Count spool name mode (ext s) in
         MLMMJWrapper.Count path_Join spool name mode s
         = Returns (fst res)
             (around OpRLock OpRUnlock (CallCount spool name mode)
                     (RetCount (fst (fst res))) (snd (fst res)) (snd res)))).
Proof.
  intros Htop Hreg Hl around.
  assert (Hw : matching OpLock OpUnlock) by (left; split; reflexivity).
  assert (Hr : matching OpRLock OpRUnlock) by (right; split; reflexivity).
  split.
  - intros ->. split; intros r <- <- res.
    + refine (guarded_registered OpLock OpUnlock s _ l zeroRWMutex
                (mkRWMutex true 0) _ _ _ _
                [EvCall (CallSub r) (RetText (fst (fst res))) (snd (fst res))]
                Hw Htop Hreg Hl eq_refl _).
      intros s1 Hext. rewrite call_returns, Hext. reflexivity.
    + refine (guarded_registered OpLock OpUnlock s _ l zeroRWMutex
                (mkRWMutex true 0) _ _ _ _
                [EvCall (CallUnsub r) (RetText (fst (fst res))) (snd (fst res))]
                Hw Htop Hreg Hl eq_refl _).
      intros s1 Hext. rewrite call_returns, Hext. reflexivity.
  - intros Hwr.
    assert (Hstep : rw_step OpRLock mu = Done (mkRWMutex false (S (readers mu))))
      by (simpl; rewrite Hwr; reflexivity).
    split; intros mode res.
    + refine (guarded_registered OpRLock OpRUnlock s _ l mu _ _ _ _ _
                [EvCall (CallList spool name mode) (RetList (fst (fst res)))
                        (snd (fst res))]
                Hr Htop Hreg Hl Hstep _).
      intros s1 Hext. rewrite call_returns, Hext. reflexivity.
    + refine (guarded_registered OpRLock OpRUnlock s _ l mu _ _ _ _ _
                [EvCall (CallCount spool name mode) (RetCount (fst (fst res)))
                        (snd (fst res))]
                Hr Htop Hreg Hl Hstep _).
      intros s1 Hext. rewrite call_returns, Hext. reflexivity.
Qed.

(** X10. A list that [MakeML] created is watched from then on: after a [MakeML]
    whose handler call succeeded, [Sub] for the same spool and name finds
    the list and returns what the handler's [Sub] returns. *)
Theorem created_list_accepts_subscriptions s spool name domain owner lang
    (mp : gmap string loc) :
  let key := listDir path_Join spool name in
  let made := handler_MakeML spool name domain owner lang (ext s) in
  top_idle s ->
  lists (lm s) = Some mp ->
  (forall l, mp !! key = Some l -> heap s !! l = Some zeroRWMutex) ->
  snd (fst made) = None ->
  exists s1,
    MLMMJWrapper.MakeML path_Join spool name domain owner lang s
    = Returns (fst made) s1
    /\ forall r, sub_Spool r = spool -> sub_Name r = name ->
         exists s2,
           MLMMJWrapper.Sub path_Join r s1
           = Returns (fst (handler_Sub r (snd made))) s2
           /\ ext s2 = snd (handler_Sub r (snd made))
           /\ count_events is_call (drop (length (trace s1)) (trace s2)) = 1%nat.
Proof.
  intros key made Hidle Hls Hfree Hok.
  assert (Hw : matching OpLock OpUnlock) by (left; split; reflexivity).
  unfold MLMMJWrapper.MakeML, bind. rewrite call_returns. fold made.
  destruct made as [[output err] w1] eqn:Hmade. simpl in Hok. subst err.
  simpl. fold key.
  destruct (mp !! key) as [l|] eqn:Hkey.
  - erewrite AddList_present;
      [|exact Hidle|unfold registered; simpl; rewrite Hls; exact Hkey].
    eexists. split; [reflexivity|].
    intros r <- <-. fold key. eexists. split.
    { refine (guarded_registered OpLock OpUnlock _ key l zeroRWMutex
                (mkRWMutex true 0) _ _ _ _
                [EvCall (CallSub r)
                        (RetText (fst (fst (handler_Sub r w1))))
                        (snd (fst (handler_Sub r w1)))]
                Hw _ _ _ eq_refl _).
      - unfold top_readable. simpl. rewrite Hidle. reflexivity.
      - unfold registered. simpl. rewrite Hls. exact Hkey.
      - simpl. apply Hfree. reflexivity.
      - intros s1 Hext. rewrite call_returns, Hext. reflexivity. }
    simpl. split; [reflexivity|].
    rewrite drop_app_length. reflexivity.
  - erewrite AddList_absent; [|exact Hidle|exact Hls|exact Hkey].
    eexists. split; [reflexivity|].
    intros r <- <-. fold key. eexists. split.
    { refine (guarded_registered OpLock OpUnlock _ key (length (heap s))
                zeroRWMutex (mkRWMutex true 0) _ _ _ _
                [EvCall (CallSub r)
                        (RetText (fst (fst (handler_Sub r w1))))
                        (snd (fst (handler_Sub r w1)))]
                Hw _ _ _ eq_refl _).
      - reflexivity.
      - unfold registered. simpl. apply lookup_insert_eq.
      - simpl. apply list_lookup_middle. reflexivity.
      - intros s1 Hext. rewrite call_returns, Hext. reflexivity. }
    simpl. split; [reflexivity|].
    rewrite drop_app_length. reflexivity.
Qed.

(** X11. A list that [RemoveList] removed is no longer watched: [Sub] and [List]
    for it return [UnwatchedList] and do not call the handler. *)
Theorem removed_list_is_unwatched s spool name l :
  top_idle s ->
  registered s (listDir path_Join spool name) = Some l ->
  exists s1,
    RemoveList (listDir path_Join spool name) s = Returns true s1
    /\ (forall r, sub_Spool r = spool -> sub_Name r = name ->
           MLMMJWrapper.Sub path_Join r s1
           = Returns ("", Some UnwatchedList) (turned_away s1))
    /\ (forall mode,
           MLMMJWrapper.List path_Join spool name mode s1
           = Returns ([], Some UnwatchedList) (turned_away s1))
    /\ ext (turned_away s1) = ext s.
Proof.
  intros Hidle Hreg. unfold registered in Hreg.
  destruct (lists (lm s)) as [mp|] eqn:Hls; [|discriminate].
  eexists. split; [eapply RemoveList_present; eassumption|].
  split; [|split; [|reflexivity]].
  - intros r <- <-.
    refine (guarded_unregistered OpLock OpUnlock _ _ _ _ _ _); [reflexivity|].
    unfold registered. simpl. apply lookup_delete_eq.
  - intros mode.
    refine (guarded_unregistered OpRLock OpRUnlock _ _ _ _ _ _); [reflexivity|].
    unfold registered. simpl. apply lookup_delete_eq.
Qed.

Lemma Init_run s (sched : list nat) (spoolList : list string) :
  top_idle s ->
  Permutation sched (seq 0 (length spoolList)) ->
  exists s',
    Init path_Join ReadDir sched spoolList s
    = Returns (first_error (discovery_errors ReadDir spoolList sched)) s'
    /\ extends (mkState (mkListManager (mutex (lm s)) (Some ∅))
                        (heap s) (ext s) (trace s))
               s' (sched ≫= names_at path_Join ReadDir spoolList)
               (spool_at spoolList <$> sched).
Proof.
  intros Hidle Hp.
  assert (Hlt : Forall (fun i => (i < length spoolList)%nat) sched).
  { apply Forall_forall. intros i Hi. rewrite Hp in Hi.
    apply elem_of_seq in Hi. lia. }
  assert (Hlen : length sched = length spoolList).
  { rewrite Hp. apply length_seq. }
  destruct (go_sched_Init path_Join ReadDir spoolList sched []
              (mkState (mkListManager (mutex (lm s)) (Some ∅))
                       (heap s) (ext s) (trace s)) ∅ Hidle eq_refl Hlt)
    as (s' & Hgo & Hext); [simpl; lia|].
  exists s'. split; [|exact Hext].
  unfold Init, bind, map_make. rewrite Hgo. simpl.
  replace (length spoolList) with
    (length (discovery_errors ReadDir spoolList sched))
    by (unfold discovery_errors; rewrite length_fmap; exact Hlen).
  apply recv_errors_first.
Qed.

(** X12. [NewMLMMJWrapper] starts from a new [ListManager], whatever was there
    before, and runs [Init] on it: it returns for every list of spools and
    every order of the goroutines, with an error (and no wrapper) exactly
    when some spool cannot be read; the mutexes that existed and the
    handler's world are untouched. *)
Theorem NewMLMMJWrapper_fails_on_an_unreadable_spool s (sched : list nat)
    (spools : list string) :
  Permutation sched (seq 0 (length spools)) ->
  exists err s' mp,
    MLMMJWrapper.NewMLMMJWrapper path_Join ReadDir sched spools s = Returns err s'
    /\ lists (lm s') = Some mp /\ top_idle s'
    /\ (err = None
        <-> forall spool, spool ∈ spools -> snd (ReadDir spool) = None)
    /\ (forall l mu, heap s !! l = Some mu -> heap s' !! l = Some mu)
    /\ ext s' = ext s.
Proof.
  intros Hp. unfold MLMMJWrapper.NewMLMMJWrapper.
  destruct (Init_run (mkState NewListManager (heap s) (ext s) (trace s))
              sched spools eq_refl Hp)
    as (s' & Hrun & Hidle & Hx & (evs & Htr & Hq) & mp0 & mp & k & _ & Hm & Hh & _).
  simpl in *. eexists _, s', mp. split; [exact Hrun|].
  split; [exact Hm|]. split; [exact Hidle|]. split; [|split].
  - rewrite first_error_all_nil. unfold discovery_errors.
    rewrite Forall_fmap, Forall_forall.
    assert (Hmem : forall spool,
               spool ∈ spools
               <-> exists i, spool = spool_at spools i /\ i ∈ sched).
    { intros spool. rewrite <- list_elem_of_fmap. symmetry.
      exact (elem_of_Permutation_proper spool _ _
               (spools_of_schedule spools sched Hp)). }
    split.
    + intros H spool Hspool.
      apply Hmem in Hspool as (i & -> & Hi). exact (H i Hi).
    + intros H i Hi. apply H. apply Hmem. eauto.
  - intros l mu Hl. rewrite Hh. rewrite lookup_app_l; [assumption|].
    eapply lookup_lt_Some; eassumption.
  - exact Hx.
Qed.
End WrapperMore.

(** * [Init] for a single spool *)

Section SingleSpoolFacts.
Context {W : Type}.
Variable ReadDir : string -> list FileInfo * option error.
Implicit Types (s : state W) (spool key : string).

Lemma SingleSpool_Init_add (found : list string) s :
  SingleSpool.Init_add found s = Init_add (fun _ name => name) "" found s.
Proof.
  revert s. induction found as [|list found IH]; intros s; [reflexivity|].
  simpl. unfold bind, listDir.
  destruct (ListManagerImpl.AddList list s); try reflexivity. apply IH.
Qed.

(** X13. The single-spool [Init] replaces the map and reads the spool once. When
    the directory cannot be read it returns that error and leaves the
    registry empty; otherwise it returns nil and the registry holds exactly
    the names of the subdirectories, as they are (not joined with the
    spool), each with a new, unlocked mutex. *)
Theorem SingleSpool_Init_registers_bare_names s spool :
  top_idle s ->
  exists s' mp,
    SingleSpool.Init ReadDir spool s = Returns (snd (ReadDir spool)) s'
    /\ lists (lm s') = Some mp
    /\ (forall key, is_Some (mp !! key) <-> key ∈ discovered ReadDir spool)
    /\ (snd (ReadDir spool) <> None -> mp = ∅)
    /\ (forall key l, mp !! key = Some l ->
                      heap s !! l = None /\ heap s' !! l = Some zeroRWMutex)
    /\ queried (drop (length (trace s)) (trace s')) = [spool].
Proof.
  intros Hidle. unfold SingleSpool.Init, bind, map_make.
  rewrite GetLists_returns. unfold discovered.
  destruct (ReadDir spool) as [files [e|]] eqn:Hrd; simpl.
  - eexists _, ∅. split; [reflexivity|]. simpl.
    split; [reflexivity|]. split.
    { intros key. rewrite lookup_empty, elem_of_nil. split; [intros [? [=]]|tauto]. }
    split; [reflexivity|]. split.
    { intros key l. rewrite lookup_empty. discriminate. }
    rewrite drop_app_length. reflexivity.
  - rewrite SingleSpool_Init_add.
    set (found := fi_Name <$> filter (fun f => fi_IsDir f = true) files).
    destruct (Init_add_extends (fun _ name => name) ReadDir "" found
                (log (EvReadDir spool)
                   (mkState (mkListManager (mutex (lm s)) (Some ∅))
                            (heap s) (ext s) (trace s))) ∅ Hidle eq_refl)
      as (s' & Hadd & _ & _ & (evs & Htr & Hq) & mp0 & mp & k
          & Hm0 & Hm & Hh & Hd & Hf).
    simpl in Hm0. injection Hm0 as <-. simpl in Htr, Hh.
    rewrite Hadd. simpl. exists s', mp. split; [reflexivity|].
    split; [exact Hm|]. split.
    { intros key. rewrite Hd, lookup_empty.
      unfold listDir. rewrite list_fmap_id.
      split; [intros [[? [=]]|H]; exact H|tauto]. }
    split; [congruence|]. split.
    { intros key l Hl. apply Hf in Hl as [Hl|Hl].
      { rewrite lookup_empty in Hl. discriminate. }
      simpl in Hl. split; [apply lookup_ge_None_2; lia|].
      rewrite Hh in *. rewrite length_app, length_replicate in Hl.
      rewrite lookup_app_r by lia. apply lookup_replicate_2. lia. }
    rewrite Htr, <- app_assoc, drop_app_length. simpl.
    change (queried evs) with (queried evs). rewrite Hq. reflexivity.
Qed.
End SingleSpoolFacts.

(** * The arguments of the commands *)

Section ArgsFacts.
Variable path_Join : string -> string -> string.

Ltac modes :=
  unfold Subscriber, Digest, Nomail, Moderator, Owner in *;
  repeat case_decide; subst; try lia.

Ltac sub_moderation flag mail dir wm cm fs bq mas :=
  exists (["-L"; dir; "-a"; mail] ++ flag
            ++ (if wm then ["-c"] else []) ++ (if cm then ["-C"] else [])
            ++ (if fs then ["-f"] else [])),
         ((if bq then ["-q"] else []) ++ (if mas then [] else ["-s"]));
  destruct wm, cm, fs, bq, mas; reflexivity.

Lemma SubRequest_subType_cases (mode : UserType) :
  (mode = Subscriber /\ SubRequest_subType mode = inl "")
  \/ (mode = Digest /\ SubRequest_subType mode = inl "-d")
  \/ (mode = Nomail /\ SubRequest_subType mode = inl "-n")
  \/ (mode <> Subscriber /\ mode <> Digest /\ mode <> Nomail
      /\ exists e, SubRequest_subType mode = inr e).
Proof.
  unfold SubRequest_subType. modes; eauto 10.
  all: right; right; right; repeat split; try lia; eauto.
Qed.

(** X14. [SubRequest.GetArgs] accepts the modes [Subscriber], [Digest] and
    [Nomail] and no other; a refusal comes with no arguments at all. The
    accepted arguments start with the list directory and the address, hold
    the moderation string right behind ["-m"] when there is one, and end
    with ["-s"] unless the address is marked as already subscribed. *)
Theorem SubRequest_GetArgs_shape (r : SubRequest) :
  let args := fst (SubRequest_GetArgs path_Join r) in
  let err := snd (SubRequest_GetArgs path_Join r) in
  (err = None
   <-> sub_Mode r = Subscriber \/ sub_Mode r = Digest \/ sub_Mode r = Nomail)
  /\ (err <> None -> args = [])
  /\ (err = None ->
      take 4 args
      = ["-L"; listDir path_Join (sub_Spool r) (sub_Name r); "-a"; sub_Mail r]
      /\ (sub_ModerationString r <> "" ->
          exists before after,
            args = before ++ ["-m"; sub_ModerationString r] ++ after)
      /\ (sub_MailAlreadySubscribed r = false -> last args = Some "-s")).
Proof.
  destruct r as [mail name ms spool wm cm fs bq mas mode]. simpl.
  unfold SubRequest_GetArgs. simpl.
  destruct (SubRequest_subType_cases mode)
    as [[-> ->]|[[-> ->]|[[-> ->]|(H0 & H1 & H2 & e & ->)]]]; simpl.
  4: { split; [split; [discriminate|tauto]|].
       split; [reflexivity|]. intros [=]. }
  all: split; [split; [tauto|reflexivity]|].
  all: split; [congruence|].
  all: intros _.
  all: split; [destruct wm, cm, fs, bq, mas; case_decide; reflexivity|].
  all: split; [|intros ->; destruct wm, cm, fs, bq; case_decide; reflexivity].
  all: intros Hms; rewrite (decide_False (P := ms = "")) by assumption.
  - sub_moderation (@nil string) mail (listDir path_Join spool name)
                   wm cm fs bq mas.
  - sub_moderation ["-d"] mail (listDir path_Join spool name) wm cm fs bq mas.
  - sub_moderation ["-n"] mail (listDir path_Join spool name) wm cm fs bq mas.
Qed.

Lemma UnsubRequest_subType_cases (mode : UserType) :
  (mode = Subscriber /\ UnsubRequest_subType mode = inl "-N")
  \/ (mode = Digest /\ UnsubRequest_subType mode = inl "-d")
  \/ (mode = Nomail /\ UnsubRequest_subType mode = inl "-n")
  \/ (mode = -1 /\ UnsubRequest_subType mode = inl "")
  \/ (mode <> Subscriber /\ mode <> Digest /\ mode <> Nomail /\ mode <> -1
      /\ exists e, UnsubRequest_subType mode = inr e).
Proof.
  unfold UnsubRequest_subType. modes; eauto 10.
  all: right; right; right; right; repeat split; try lia; eauto.
Qed.

Ltac holds := apply (bool_decide_unpack _); vm_compute; exact I.

Ltac flag_iff :=
  match goal with |- _ <-> _ => split end; intros Hflag;
  first [ reflexivity
        | holds
        | discriminate Hflag
        | exfalso; revert Hflag; holds ].

Ltac flags_sub :=
  intros ? Hsub;
  repeat (apply elem_of_cons in Hsub as [->|Hsub]; [holds|]);
  apply elem_of_nil in Hsub; contradiction.

(** X15. [UnsubRequest.GetArgs] accepts the modes [-1], [Subscriber], [Digest]
    and [Nomail] and no other; a refusal comes with no arguments. The
    accepted arguments are the list directory followed by flags: each of
    ["-c"], ["-C"], ["-q"] is there exactly when its field is set, and
    ["-s"] exactly when the address is not marked as not subscribed. The
    address itself is not among what decides the arguments: two requests
    that differ in [Mail] only get the same ones. *)
Theorem UnsubRequest_GetArgs_shape (r : UnsubRequest) :
  let args := fst (UnsubRequest_GetArgs path_Join r) in
  let err := snd (UnsubRequest_GetArgs path_Join r) in
  (err = None
   <-> unsub_Mode r = -1 \/ unsub_Mode r = Subscriber
       \/ unsub_Mode r = Digest \/ unsub_Mode r = Nomail)
  /\ (err <> None -> args = [])
  /\ (err = None ->
      exists flags,
        args = ["-L"; listDir path_Join (unsub_Spool r) (unsub_Name r)] ++ flags
        /\ flags ⊆ ["-N"; "-d"; "-n"; "-c"; "-C"; "-q"; "-s"]
        /\ ("-c" ∈ flags <-> unsub_GoodBye r = true)
        /\ ("-C" ∈ flags <-> unsub_ConfirmationMail r = true)
        /\ ("-q" ∈ flags <-> unsub_BeQuiet r = true)
        /\ ("-s" ∈ flags <-> unsub_MailNotSubscribed r = false))
  /\ (forall mail',
        UnsubRequest_GetArgs path_Join
          (mkUnsubRequest mail' (unsub_Name r) (unsub_Spool r) (unsub_GoodBye r)
             (unsub_ConfirmationMail r) (unsub_BeQuiet r)
             (unsub_MailNotSubscribed r) (unsub_Mode r))
        = UnsubRequest_GetArgs path_Join r).
Proof.
  destruct r as [mail name spool gb cm bq mns mode]. simpl.
  split; [|split; [|split; [|reflexivity]]];
    unfold UnsubRequest_GetArgs; simpl;
    destruct (UnsubRequest_subType_cases mode)
      as [[-> ->]|[[-> ->]|[[-> ->]|[[-> ->]|(H0 & H1 & H2 & H3 & e & ->)]]]];
    simpl.
  - split; [tauto|reflexivity].
  - split; [tauto|reflexivity].
  - split; [tauto|reflexivity].
  - split; [tauto|reflexivity].
  - split; [discriminate|tauto].
  - congruence.
  - congruence.
  - congruence.
  - congruence.
  - reflexivity.
  - intros _. destruct gb, cm, bq, mns; simpl;
      (eexists; split; [reflexivity|]);
      (split; [flags_sub|]); do 3 (split; [flag_iff|]); flag_iff.
  - intros _. destruct gb, cm, bq, mns; simpl;
      (eexists; split; [reflexivity|]);
      (split; [flags_sub|]); do 3 (split; [flag_iff|]); flag_iff.
  - intros _. destruct gb, cm, bq, mns; simpl;
      (eexists; split; [reflexivity|]);
      (split; [flags_sub|]); do 3 (split; [flag_iff|]); flag_iff.
  - intros _. destruct gb, cm, bq, mns; simpl;
      (eexists; split; [reflexivity|]);
      (split; [flags_sub|]); do 3 (split; [flag_iff|]); flag_iff.
  - intros [=].
Qed.

Lemma GetListArgs_subType_cases (mode : UserType) :
  (exists flag, GetListArgs_subType mode = inl flag /\ (-1 <= mode <= 4)
                /\ flag = match mode with
                          | -1 => "" | 0 => "-s" | 1 => "-d" | 2 => "-n"
                          | 3 => "-m" | _ => "-o"
                          end)
  \/ ((mode < -1 \/ 4 < mode) /\ exists e, GetListArgs_subType mode = inr e).
Proof.
  unfold GetListArgs_subType. modes.
  all: first [ left; eexists; split; [reflexivity|]; split; [lia|reflexivity]
             | right; split; [lia|eauto] ].
Qed.

(** X16. [GetListArgs] accepts the modes from [-1] to [Owner] and no other; a
    refusal comes with no arguments. For counting, the arguments are those
    for listing followed by ["-c"]. The accepted arguments tell the mode:
    two modes with the same arguments are the same mode. *)
Theorem GetListArgs_shape (spool name : string) (mode : UserType) :
  (forall count,
      snd (GetListArgs path_Join spool name mode count) = None
      <-> -1 <= mode <= 4)
  /\ (forall count,
        snd (GetListArgs path_Join spool name mode count) <> None ->
        fst (GetListArgs path_Join spool name mode count) = [])
  /\ (-1 <= mode <= 4 ->
      fst (GetListArgs path_Join spool name mode true)
      = fst (GetListArgs path_Join spool name mode false) ++ ["-c"])
  /\ (forall mode' count,
        -1 <= mode <= 4 -> -1 <= mode' <= 4 ->
        GetListArgs path_Join spool name mode count
        = GetListArgs path_Join spool name mode' count ->
        mode = mode').
Proof.
  unfold GetListArgs.
  split; [|split; [|split]].
  - intros count.
    destruct (GetListArgs_subType_cases mode)
      as [(flag & -> & Hm & _)|(Hm & e & ->)]; simpl.
    + tauto.
    + split; [discriminate|lia].
  - intros count.
    destruct (GetListArgs_subType_cases mode)
      as [(flag & -> & Hm & _)|(Hm & e & ->)]; simpl; congruence.
  - intros Hm.
    destruct (GetListArgs_subType_cases mode)
      as [(flag & -> & _ & ->)|(Hm' & _)]; [|lia].
    assert (Hin : mode = -1 \/ mode = 0 \/ mode = 1 \/ mode = 2
                  \/ mode = 3 \/ mode = 4) by lia.
    destruct Hin as [-> | [-> | [-> | [-> | [-> | ->]]]]]; reflexivity.
  - intros mode' count Hm Hm'.
    destruct (GetListArgs_subType_cases mode)
      as [(flag & -> & _ & ->)|(H & _)]; [|lia].
    destruct (GetListArgs_subType_cases mode')
      as [(flag' & -> & _ & ->)|(H & _)]; [|lia].
    assert (Hin : mode = -1 \/ mode = 0 \/ mode = 1 \/ mode = 2
                  \/ mode = 3 \/ mode = 4) by lia.
    assert (Hin' : mode' = -1 \/ mode' = 0 \/ mode' = 1 \/ mode' = 2
                   \/ mode' = 3 \/ mode' = 4) by lia.
    destruct Hin as [-> | [-> | [-> | [-> | [-> | ->]]]]];
      destruct Hin' as [-> | [-> | [-> | [-> | [-> | ->]]]]];
      destruct count; simpl; intros [=]; reflexivity.
Qed.
End ArgsFacts.

(** * [DockerHandler] and the service *)

Section DockerMore.
Context {X : Type}.
Variable path_Join : string -> string -> string.
Variable transport : string -> list string -> X -> http_result * X.
Variable ScanLines : string -> list string * option error.
Variable TrimSpace : string -> string.
Variable Atoi : string -> Z * option error.

(** What one round of the transport gives as the answer of [post]. *)
Lemma post_answer (cmd : string) (args : list string) (w : docker X) :
  fst (DockerHandler.post transport cmd args w)
  = match fst (transport cmd args (service w)) with
    | HttpFail e => ("", Some e)
    | HttpResponse rc out =>
        if decide (rc = 0) then (out, None) else (out, Some (NewError out))
    end
  /\ service (snd (DockerHandler.post transport cmd args w))
     = snd (transport cmd args (service w)).
Proof.
  unfold DockerHandler.post.
  destruct (transport cmd args (service w)) as [[e|rc out] x']; simpl;
    [|destruct (decide (rc = 0))]; split; reflexivity.
Qed.

(** X17. A request whose mode the argument builder refuses never reaches the
    transport: the handler returns the builder's error (with [""], the nil
    list or [-1]) and its world is as before. Every other call of [Sub],
    [Unsub], [List] and [Count], and every call of [MakeML], goes through
    the transport exactly once, with the command of the method and the
    arguments the builder gave ([List] and [Count] with the same command):
    the service is left as that one round leaves it. For [MakeML], [Sub]
    and [Unsub] the answer is the round's: the output and nil on return code
    0, the output and an error that carries it on another code, [""] and
    the error when the round failed. *)
Theorem DockerHandler_refuses_or_asks_once (w : docker X) :
  let answer cmd args :=
    match fst (transport cmd args (service w)) with
    | HttpFail e => ("", Some e)
    | HttpResponse rc out =>
        if decide (rc = 0) then (out, None) else (out, Some (NewError out))
    end in
  let after cmd args := snd (transport cmd args (service w)) in
  (forall spool name domain owner lang,
      let args := ["-L"; name; "-d"; domain; "-o"; owner; "-l"; lang;
                   "-s"; spool] in
      let res := DockerHandler.MakeML transport spool name domain owner lang w in
      fst res = answer "mlmmj-make-ml" args
      /\ service (snd res) = after "mlmmj-make-ml" args)
  /\ (forall r,
        let built := SubRequest_GetArgs path_Join r in
        let res := DockerHandler.Sub path_Join transport r w in
        (sub_Mode r = Subscriber \/ sub_Mode r = Digest \/ sub_Mode r = Nomail ->
         fst res = answer "mlmmj-sub" (fst built)
         /\ service (snd res) = after "mlmmj-sub" (fst built))
        /\ (~ (sub_Mode r = Subscriber \/ sub_Mode r = Digest
               \/ sub_Mode r = Nomail) ->
            snd built <> None /\ res = (("", snd built), w)))
  /\ (forall r,
        let built := UnsubRequest_GetArgs path_Join r in
        let res := DockerHandler.Unsub path_Join transport r w in
        (unsub_Mode r = -1 \/ unsub_Mode r = Subscriber
         \/ unsub_Mode r = Digest \/ unsub_Mode r = Nomail ->
         fst res = answer "mlmmj-unsub" (fst built)
         /\ service (snd res) = after "mlmmj-unsub" (fst built))
        /\ (~ (unsub_Mode r = -1 \/ unsub_Mode r = Subscriber
               \/ unsub_Mode r = Digest \/ unsub_Mode r = Nomail) ->
            snd built <> None /\ res = (("", snd built), w)))
  /\ (forall spool name mode,
        let listing := GetListArgs path_Join spool name mode false in
        let counting := GetListArgs path_Join spool name mode true in
        (-1 <= mode <= 4 ->
         service (snd (DockerHandler.List path_Join transport ScanLines
                         TrimSpace spool name mode w))
         = after "mlmmj-list" (fst listing)
         /\ service (snd (DockerHandler.Count path_Join transport TrimSpace
                            Atoi spool name mode w))
            = after "mlmmj-list" (fst counting))
        /\ (~ -1 <= mode <= 4 ->
            snd listing <> None
            /\ DockerHandler.List path_Join transport ScanLines TrimSpace
                 spool name mode w
               = (([], snd listing), w)
            /\ DockerHandler.Count path_Join transport TrimSpace Atoi
                 spool name mode w
               = ((-1, snd listing), w))).
Proof.
  intros answer after. subst answer after. cbv beta.
  split; [|split; [|split]].
  - intros. unfold res, DockerHandler.MakeML. simpl. apply post_answer.
  - intros [mail name ms spool wm cm fs bq mas mode] built res.
    subst built res.
    unfold DockerHandler.Sub, SubRequest_GetArgs. simpl.
    destruct (SubRequest_subType_cases mode)
      as [[-> ->]|[[-> ->]|[[-> ->]|(H0 & H1 & H2 & e & ->)]]]; simpl.
    4: { split; [tauto|]. intros _. split; [discriminate|reflexivity]. }
    all: split; [intros _; apply post_answer|].
    all: intros H; exfalso; apply H; tauto.
  - intros [mail name spool gb cm bq mns mode] built res. subst built res.
    unfold DockerHandler.Unsub, UnsubRequest_GetArgs. simpl.
    destruct (UnsubRequest_subType_cases mode)
      as [[-> ->]|[[-> ->]|[[-> ->]|[[-> ->]|(H0 & H1 & H2 & H3 & e & ->)]]]];
      simpl.
    5: { split; [tauto|]. intros _. split; [discriminate|reflexivity]. }
    all: split; [intros _; apply post_answer|].
    all: intros H; exfalso; apply H; tauto.
  - intros spool name mode listing counting. subst listing counting.
    unfold DockerHandler.List, DockerHandler.Count, GetListArgs.
    destruct (GetListArgs_subType_cases mode)
      as [(flag & -> & Hm & _)|(Hm & e & ->)]; simpl.
    + split; [|intros H; exfalso; apply H; exact Hm]. intros _. split.
      * match goal with
        | |- context [DockerHandler.post transport ?c ?a w] =>
            destruct (post_answer c a w) as [_ Hp];
            destruct (DockerHandler.post transport c a w) as [[out [err|]] w']
        end; simpl in *; [exact Hp|].
        destruct (DockerHandler.parseListOutput ScanLines TrimSpace out).
        exact Hp.
      * match goal with
        | |- context [DockerHandler.post transport ?c ?a w] =>
            destruct (post_answer c a w) as [_ Hp];
            destruct (DockerHandler.post transport c a w) as [[out [err|]] w']
        end; simpl in *; [exact Hp|].
        destruct (DockerHandler.parseCountOutput TrimSpace Atoi out).
        exact Hp.
    + split; [intros H; lia|]. intros _.
      split; [discriminate|split; reflexivity].
Qed.

(** X18. [List] never returns data together with an error: whenever its error is
    non-nil (refused mode, failed request, non-zero return code, scanner
    error) the list is nil. The entries it does return are trimmed lines,
    none of them empty. *)
Theorem DockerHandler_List_data_or_error (spool name : string)
    (mode : UserType) (w : docker X) :
  let res := fst (DockerHandler.List path_Join transport ScanLines TrimSpace
                    spool name mode w) in
  (snd res <> None -> fst res = [])
  /\ (forall entry, entry ∈ fst res ->
        entry <> "" /\ exists out line,
            line ∈ fst (ScanLines out) /\ entry = TrimSpace line).
Proof.
  unfold DockerHandler.List.
  destruct (GetListArgs path_Join spool name mode false) as [args [e|]]; simpl.
  { split; [reflexivity|]. intros entry H. apply elem_of_nil in H. contradiction. }
  destruct (DockerHandler.post transport "mlmmj-list" args w)
    as [[out [err|]] w']; simpl.
  { split; [reflexivity|]. intros entry H. apply elem_of_nil in H. contradiction. }
  unfold DockerHandler.parseListOutput.
  destruct (ScanLines out) as [lines [e|]] eqn:Hscan; simpl.
  { split; [reflexivity|]. intros entry H. apply elem_of_nil in H. contradiction. }
  split; [congruence|].
  intros entry Hin. apply list_elem_of_filter in Hin as [Hne Hin].
  split; [exact Hne|].
  apply list_elem_of_fmap in Hin as (line & -> & Hline).
  exists out, line. rewrite Hscan. split; [exact Hline|reflexivity].
Qed.
End DockerMore.

(** * The further properties on the sample installation *)

Lemma RemoveList_forgets_one_name_witness :
  exists s',
    ListManagerImpl.RemoveList Sample.alpha (Sample.watching tt) = Returns true s'
    /\ registered s' Sample.alpha = None.
Proof.
  destruct (RemoveList_forgets_one_name (Sample.watching tt) Sample.alpha eq_refl)
    as (s' & Hrun & Hgone & _).
  exists s'. split; [exact Hrun|exact Hgone].
Defined.

Lemma AddList_disturbs_nothing_else_witness :
  exists s',
    ListManagerImpl.AddList Sample.beta (Sample.watching tt) = Returns true s'
    /\ registered s' Sample.alpha = registered (Sample.watching tt) Sample.alpha.
Proof.
  destruct (AddList_disturbs_nothing_else (Sample.watching tt) Sample.beta eq_refl)
    as (s' & Hrun & _ & Hother & _).
  - discriminate.
  - exists s'. split; [exact Hrun|]. apply Hother. discriminate.
Defined.

Lemma guard_outlives_RemoveList_witness :
  exists release s1 s2 s3,
    ListManagerImpl.WriteList Sample.alpha (Sample.watching tt)
    = Returns (true, release) s1
    /\ ListManagerImpl.RemoveList Sample.alpha s1 = Returns true s2
    /\ release s2 = Returns tt s3
    /\ heap s3 = heap (Sample.watching tt).
Proof.
  destruct (guard_outlives_RemoveList (Sample.watching tt) Sample.alpha 0%nat)
    as [(release & s1 & s2 & s3 & H1 & H2 & H3 & H4 & _) _].
  - reflexivity.
  - vm_compute. reflexivity.
  - reflexivity.
  - exists release, s1, s2, s3. repeat split; assumption.
Defined.

Lemma write_guard_excludes_witness :
  exists release s1,
    ListManagerImpl.WriteList Sample.alpha (Sample.watching tt)
    = Returns (true, release) s1
    /\ ListManagerImpl.ReadList Sample.alpha s1 = Blocks (top_rlocked s1).
Proof.
  destruct (write_guard_excludes (Sample.watching tt) Sample.alpha 0%nat)
    as (release & s1 & s2 & H1 & _ & H2 & _).
  - reflexivity.
  - vm_compute. reflexivity.
  - reflexivity.
  - exists release, s1. split; assumption.
Defined.

Lemma read_guards_share_witness :
  exists release1 release2 s1 s2,
    ListManagerImpl.ReadList Sample.alpha (Sample.watching tt)
    = Returns (true, release1) s1
    /\ ListManagerImpl.ReadList Sample.alpha s1 = Returns (true, release2) s2
    /\ ListManagerImpl.WriteList Sample.alpha s2 = Blocks (top_rlocked s2).
Proof.
  destruct (read_guards_share (Sample.watching tt) Sample.alpha 0%nat)
    as (r1 & r2 & s1 & s2 & s3 & s4 & H1 & H2 & _ & H3 & _).
  - reflexivity.
  - vm_compute. reflexivity.
  - reflexivity.
  - exists r1, r2, s1, s2. repeat split; assumption.
Defined.

Lemma guards_on_different_lists_witness :
  exists release s1 release' s2,
    ListManagerImpl.WriteList Sample.alpha (Sample.watching_two tt)
    = Returns (true, release) s1
    /\ ListManagerImpl.WriteList Sample.beta s1 = Returns (true, release') s2.
Proof.
  destruct (guards_on_different_lists (Sample.watching_two tt)
              Sample.alpha Sample.beta 0%nat 1%nat)
    as (release & s1 & H1 & (release' & s2 & _ & _ & H2 & _) & _).
  - reflexivity.
  - split.
    + intros name l. unfold registered. simpl.
      destruct (decide (name = Sample.beta)) as [->|Hb].
      { rewrite lookup_insert_eq. intros [= <-]. lia. }
      rewrite lookup_insert_ne by congruence.
      destruct (decide (name = Sample.alpha)) as [->|Ha].
      { rewrite lookup_singleton_eq. intros [= <-]. lia. }
      rewrite lookup_singleton_ne by congruence. discriminate.
    + intros n1 n2 l. unfold registered. simpl.
      destruct (decide (n1 = Sample.beta)) as [->|Hb1];
        destruct (decide (n2 = Sample.beta)) as [->|Hb2];
        rewrite ?lookup_insert_eq, ?lookup_insert_ne by congruence;
        try (destruct (decide (n1 = Sample.alpha)) as [->|Ha1]);
        try (destruct (decide (n2 = Sample.alpha)) as [->|Ha2]);
        rewrite ?lookup_singleton_eq, ?lookup_singleton_ne by congruence;
        congruence.
  - discriminate.
  - vm_compute. reflexivity.
  - vm_compute. reflexivity.
  - reflexivity.
  - reflexivity.
  - exists release, s1, release', s2. split; assumption.
Defined.

Lemma registry_stays_well_formed_witness :
  exists err s',
    @Init unit Sample.join Sample.readdir [1; 0]%nat
      ["/var/spool/mlmmj"; "/srv/lists"] (Sample.watching tt)
    = Returns err s'
    /\ well_formed s'.
Proof.
  destruct (@registry_stays_well_formed unit Sample.join Sample.readdir)
    as (Hinit & _).
  apply Hinit.
  - reflexivity.
  - apply perm_swap.
Defined.

Lemma handler_is_not_called_while_waiting_witness :
  @MLMMJWrapper.List unit Sample.flaky Sample.join
    "/var/spool/mlmmj" "alpha" Subscriber (Sample.writing tt)
  = Blocks (top_rlocked (Sample.writing tt)).
Proof.
  destruct (@handler_is_not_called_while_waiting unit Sample.flaky Sample.join
              (Sample.writing tt) "/var/spool/mlmmj" "alpha" 0%nat
              (mkRWMutex true 0))
    as (_ & Hread & _).
  - reflexivity.
  - vm_compute. reflexivity.
  - reflexivity.
  - destruct (Hread eq_refl) as (Hlist & _). apply Hlist.
Defined.

Lemma watched_list_gets_the_handlers_answer_witness :
  exists s',
    @MLMMJWrapper.Sub unit Sample.flaky Sample.join
      (NewSubRequest "a@example.com" "alpha") (Sample.watching tt)
    = Returns ("subscribed", None) s'.
Proof.
  destruct (@watched_list_gets_the_handlers_answer unit Sample.flaky Sample.join
              (Sample.watching tt) "/var/spool/mlmmj" "alpha" 0%nat zeroRWMutex)
    as (Hwrite & _).
  - reflexivity.
  - vm_compute. reflexivity.
  - reflexivity.
  - destruct (Hwrite eq_refl) as (Hsub & _).
    eexists. apply (Hsub (NewSubRequest "a@example.com" "alpha")); reflexivity.
Defined.

Lemma created_list_accepts_subscriptions_witness :
  exists s1 s2,
    @MLMMJWrapper.MakeML unit Sample.flaky Sample.join
      "/var/spool/mlmmj" "beta" "example.org" "owner@example.org" "en"
      (Sample.watching tt)
    = Returns ("created", None) s1
    /\ @MLMMJWrapper.Sub unit Sample.flaky Sample.join
         (NewSubRequest "a@example.com" "beta") s1
       = Returns ("subscribed", None) s2.
Proof.
  destruct (@created_list_accepts_subscriptions unit Sample.flaky Sample.join
              (Sample.watching tt) "/var/spool/mlmmj" "beta" "example.org"
              "owner@example.org" "en" {[ Sample.alpha := 0%nat ]})
    as (s1 & Hmake & Hsub).
  - reflexivity.
  - reflexivity.
  - intros l Hl. vm_compute in Hl. discriminate.
  - reflexivity.
  - destruct (Hsub (NewSubRequest "a@example.com" "beta") eq_refl eq_refl)
      as (s2 & Hrun & _).
    exists s1, s2. split; [exact Hmake|exact Hrun].
Defined.

Lemma removed_list_is_unwatched_witness :
  exists s1,
    ListManagerImpl.RemoveList Sample.alpha (Sample.watching tt) = Returns true s1
    /\ @MLMMJWrapper.Sub unit Sample.flaky Sample.join
         (NewSubRequest "a@example.com" "alpha") s1
       = Returns ("", Some UnwatchedList) (turned_away s1).
Proof.
  destruct (@removed_list_is_unwatched unit Sample.flaky Sample.join
              (Sample.watching tt) "/var/spool/mlmmj" "alpha" 0%nat)
    as (s1 & Hrm & Hsub & _).
  - reflexivity.
  - vm_compute. reflexivity.
  - exists s1. split; [exact Hrm|].
    apply (Hsub (NewSubRequest "a@example.com" "alpha")); reflexivity.
Defined.

Lemma NewMLMMJWrapper_fails_on_an_unreadable_spool_witness :
  exists err s',
    @MLMMJWrapper.NewMLMMJWrapper unit Sample.join Sample.readdir [1; 0]%nat
      ["/var/spool/mlmmj"; "/nowhere"] (Sample.writing tt)
    = Returns err s'
    /\ err <> None.
Proof.
  destruct (@NewMLMMJWrapper_fails_on_an_unreadable_spool unit Sample.join
              Sample.readdir (Sample.writing tt) [1; 0]%nat
              ["/var/spool/mlmmj"; "/nowhere"])
    as (err & s' & mp & Hrun & _ & _ & Herr & _).
  - apply perm_swap.
  - exists err, s'. split; [exact Hrun|].
    intros Hnone.
    assert (Hin : "/nowhere" ∈ ["/var/spool/mlmmj"; "/nowhere"])
      by (apply list_elem_of_further, list_elem_of_here).
    pose proof (proj1 Herr Hnone "/nowhere" Hin) as Hread.
    vm_compute in Hread. discriminate.
Defined.

Lemma SingleSpool_Init_registers_bare_names_witness :
  exists s' mp,
    @SingleSpool.Init unit Sample.readdir "/var/spool/mlmmj" (Sample.watching tt)
    = Returns None s'
    /\ lists (lm s') = Some mp /\ is_Some (mp !! "alpha").
Proof.
  destruct (@SingleSpool_Init_registers_bare_names unit Sample.readdir
              (Sample.watching tt) "/var/spool/mlmmj" eq_refl)
    as (s' & mp & Hrun & Hls & Hdom & _).
  exists s', mp. split; [exact Hrun|]. split; [exact Hls|].
  apply Hdom. vm_compute. apply list_elem_of_here.
Defined.

Lemma SubRequest_GetArgs_shape_witness :
  take 4 (fst (SubRequest_GetArgs Sample.join (NewSubRequest "a@example.com" "alpha")))
  = ["-L"; Sample.alpha; "-a"; "a@example.com"].
Proof.
  destruct (SubRequest_GetArgs_shape Sample.join
              (NewSubRequest "a@example.com" "alpha"))
    as (_ & _ & Hok).
  destruct (Hok eq_refl) as (Hhead & _). exact Hhead.
Defined.

Lemma UnsubRequest_GetArgs_shape_witness :
  fst (UnsubRequest_GetArgs Sample.join Sample.unsub_owner) = [].
Proof.
  destruct (UnsubRequest_GetArgs_shape Sample.join Sample.unsub_owner)
    as (_ & Hno & _).
  apply Hno. discriminate.
Defined.

Lemma GetListArgs_shape_witness :
  fst (GetListArgs Sample.join "/var/spool/mlmmj" "alpha" Owner true)
  = fst (GetListArgs Sample.join "/var/spool/mlmmj" "alpha" Owner false) ++ ["-c"].
Proof.
  destruct (GetListArgs_shape Sample.join "/var/spool/mlmmj" "alpha" Owner)
    as (_ & _ & Hcount & _).
  apply Hcount. unfold Owner. lia.
Defined.

Lemma DockerHandler_refuses_or_asks_once_witness :
  DockerHandler.List Sample.join Sample.transport Sample.scan Sample.trim
    "/var/spool/mlmmj" "alpha" 7 (mkDocker tt [])
  = (([], snd (GetListArgs Sample.join "/var/spool/mlmmj" "alpha" 7 false)),
     mkDocker tt []).
Proof.
  destruct (DockerHandler_refuses_or_asks_once Sample.join Sample.transport
              Sample.scan Sample.trim Sample.atoi (mkDocker tt []))
    as (_ & _ & _ & Hlist).
  destruct (Hlist "/var/spool/mlmmj" "alpha" 7) as (_ & Hbad).
  destruct Hbad as (_ & Hrun & _); [lia|]. exact Hrun.
Defined.

Lemma DockerHandler_List_data_or_error_witness :
  fst (fst (DockerHandler.List Sample.join Sample.transport Sample.scan
              Sample.trim "/var/spool/mlmmj" "alpha" 7 (mkDocker tt [])))
  = [].
Proof.
  destruct (DockerHandler_List_data_or_error Sample.join Sample.transport
              Sample.scan Sample.trim "/var/spool/mlmmj" "alpha" 7
              (mkDocker tt []))
    as (Herr & _).
  apply Herr. discriminate.
Defined.
